(** * Bedrock model catalog: refresh pipeline and beta classifier

    A shallow embedding of [scripts/refresh-bedrock-data.py] and
    [scripts/find_beta_models.py], and the properties of the catalog merge,
    the region probe and the beta classification proved about it.

    Conventions of the embedding.
    - A Python [str] is a [string]: the sequence of its code points, each
      below 256.  On that range [str.lower] is a per-character map.
    - A JSON-like Python object is a [value]; a [dict] with string keys is an
      association list in insertion order whose first binding of a key is
      the binding of that key.
    - A Python exception is a constructor of [exn]; a computation that may
      raise returns a [result].
    - The boto3 clients are a [service]: functions from the number of calls
      made so far and the request to the response or the exception raised.
      They raise subclasses of [Exception] only.
    - Numbers are integers.  Writing a file succeeds and is recorded in the
      state.  [print] calls are not modelled. *)

From Stdlib Require Import List String Ascii ZArith NArith Bool Lia.
From Stdlib Require Import Sorted Permutation.
From Stdlib Require OrderedTypeEx.
Import ListNotations.
Local Open Scope string_scope.
Local Open Scope list_scope.
Set Warnings "-register-all".

(** ** Python values, exceptions and dictionaries *)

Module Py.

Inductive value : Type :=
| VNone
| VBool (b : bool)
| VInt (n : Z)
| VStr (s : string)
| VList (l : list value)
| VDict (d : list (string * value)).

Definition dict : Type := list (string * value).

Inductive exn : Type :=
| BotoCoreError
| ClientError
| TypeError
| AttributeError
| KeyError
| OtherError.

Inductive result (A : Type) : Type :=
| Ok (a : A)
| Raise (e : exn).
Arguments Ok {A} a.
Arguments Raise {A} e.

Definition bind {A B : Type} (r : result A) (k : A -> result B) : result B :=
  match r with
  | Ok a => k a
  | Raise e => Raise e
  end.

(** [except (BotoCoreError, ClientError)]. *)
Definition is_boto_error (e : exn) : bool :=
  match e with
  | BotoCoreError | ClientError => true
  | _ => false
  end.

(** [bool(v)]: the truth value Python gives an object. *)
Definition truthy (v : value) : bool :=
  match v with
  | VNone => false
  | VBool b => b
  | VInt n => negb (n =? 0)%Z
  | VStr s => negb (s =? "")
  | VList l => match l with [] => false | _ => true end
  | VDict d => match d with [] => false | _ => true end
  end.

(** Lists and dicts cannot be dictionary keys. *)
Definition hashable (v : value) : bool :=
  match v with
  | VList _ | VDict _ => false
  | _ => true
  end.

(** [a == b] on hashable values; [bool] is a subclass of [int], so
    [True == 1] and [False == 0]. *)
Definition key_eqb (a b : value) : bool :=
  match a, b with
  | VNone, VNone => true
  | VStr s, VStr t => (s =? t)
  | VBool x, VBool y => Bool.eqb x y
  | VInt x, VInt y => (x =? y)%Z
  | VBool x, VInt y => ((if x then 1 else 0) =? y)%Z
  | VInt x, VBool y => (x =? (if y then 1 else 0))%Z
  | _, _ => false
  end.

(** [v == s] for a [str] literal [s]. *)
Definition py_eq_str (v : value) (s : string) : bool :=
  match v with
  | VStr t => (t =? s)
  | _ => false
  end.

(** [k in d] and [d.get(k, default)] for a dict with string keys. *)
Fixpoint dict_get (d : dict) (k : string) : option value :=
  match d with
  | [] => None
  | (k', v) :: rest => if (k' =? k) then Some v else dict_get rest k
  end.

Definition dict_has (d : dict) (k : string) : bool :=
  match dict_get d k with
  | Some _ => true
  | None => false
  end.

Definition get_default (d : dict) (k : string) (default : value) : value :=
  match dict_get d k with
  | Some v => v
  | None => default
  end.

(** [d[k] = v]: an existing key keeps its position, a new one goes last. *)
Fixpoint dict_set (d : dict) (k : string) (v : value) : dict :=
  match d with
  | [] => [(k, v)]
  | (k', v') :: rest =>
      if (k' =? k) then (k', v) :: rest else (k', v') :: dict_set rest k v
  end.

(** [needle in hay] for two strings. *)
Fixpoint str_in (needle hay : string) : bool :=
  String.prefix needle hay
  || match hay with
     | EmptyString => false
     | String _ rest => str_in needle rest
     end.

(** [str.lower] on one code point below 256: A-Z and the Latin-1 capitals
    (U+00C0 to U+00DE but the multiplication sign U+00D7) move up by 32. *)
Definition lower_char (c : ascii) : ascii :=
  let n := N_of_ascii c in
  if ((65 <=? n) && (n <=? 90)
      || (192 <=? n) && (n <=? 222) && negb (n =? 215))%N
  then ascii_of_N (n + 32)
  else c.

Fixpoint lower (s : string) : string :=
  match s with
  | EmptyString => EmptyString
  | String c rest => String (lower_char c) (lower rest)
  end.

End Py.

Import Py.

Notation "x <- r ;; k" := (bind r (fun x => k))
  (at level 61, r at next level, right associativity).

(** ** [find_beta_models.py] *)

Module Beta.

(** The value [load_models_json] stores under each model id. *)
Record model_info : Type := {
  name : value;
  provider : value;
  full_model : dict
}.

(** The dict appended to [found_models] or [beta_models]. *)
Record row : Type := {
  row_id : value;
  row_name : value;
  row_provider : value
}.

Definition models_data : Type := list (value * model_info).

Definition row_of (model_id : value) (info : model_info) : row :=
  {| row_id := model_id; row_name := name info; row_provider := provider info |}.

(** [model_info[model_id] = info]: a key already there keeps its place. *)
Fixpoint info_set (md : models_data) (model_id : value) (info : model_info)
    : models_data :=
  match md with
  | [] => [(model_id, info)]
  | (k, info') :: rest =>
      if key_eqb k model_id then (k, info) :: rest
      else (k, info') :: info_set rest model_id info
  end.

(** The id and the dict [load_models_json] makes of one model. *)
Definition item_of (model : dict) : value * model_info :=
  (get_default model "modelId" (VStr ""),
   {| name := get_default model "modelName" (VStr "");
      provider := get_default model "providerName" (VStr "");
      full_model := model |}).

(** [load_models_json] once the file is parsed into [models]. *)
Fixpoint load_models (models : list dict) (md : models_data)
    : result models_data :=
  match models with
  | [] => Ok md
  | model :: rest =>
      let '(model_id, info) := item_of model in
      if truthy model_id then
        if hashable model_id then load_models rest (info_set md model_id info)
        else Raise TypeError
      else load_models rest md
  end.

Definition load_models_json (models : list dict) : result models_data :=
  load_models models [].

(** [full_model.get('modelLifecycle', {}).get('status', '')] *)
Definition lifecycle_status (fm : dict) : result value :=
  match get_default fm "modelLifecycle" (VDict []) with
  | VDict d => Ok (get_default d "status" (VStr ""))
  | _ => Raise AttributeError
  end.

(** [model_name in html_content] *)
Definition name_in (model_name : value) (html_content : string) : result bool :=
  match model_name with
  | VStr s => Ok (str_in s html_content)
  | _ => Raise TypeError
  end.

(** [model_name.lower() in html_content.lower()] *)
Definition name_in_lower (model_name : value) (html_content : string) : result bool :=
  match model_name with
  | VStr s => Ok (str_in (lower s) (lower html_content))
  | _ => Raise AttributeError
  end.

(** One iteration of the loop over [models_data.items()]; the state is
    the pair [(beta_models, found_models)]. *)
Definition loop_body (html_content : string) (acc : list row * list row)
    (item : value * model_info) : result (list row * list row) :=
  let '(beta_models, found_models) := acc in
  let '(model_id, info) := item in
  lifecycle <- lifecycle_status (full_model info) ;;
  if py_eq_str lifecycle "LEGACY" then Ok acc
  else
    exact <- name_in (name info) html_content ;;
    if exact then Ok (beta_models, found_models ++ [row_of model_id info])
    else
      folded <- name_in_lower (name info) html_content ;;
      if folded then Ok (beta_models, found_models ++ [row_of model_id info])
      else Ok (beta_models ++ [row_of model_id info], found_models).

Fixpoint loop (html_content : string) (items : models_data)
    (acc : list row * list row) : result (list row * list row) :=
  match items with
  | [] => Ok acc
  | item :: rest =>
      acc' <- loop_body html_content acc item ;;
      loop html_content rest acc'
  end.

(** Returns [(beta_models, found_models)]. *)
Definition find_beta_models (md : models_data) (html_content : string)
    : result (list row * list row) :=
  loop html_content md ([], []).

(** [c.isspace()] for a code point below 256. *)
Definition is_space (c : ascii) : bool :=
  let n := N_of_ascii c in
  ((9 <=? n) && (n <=? 13) || (28 <=? n) && (n <=? 32)
   || (n =? 133) || (n =? 160))%N.

Fixpoint lstrip (s : string) : string :=
  match s with
  | EmptyString => EmptyString
  | String c rest => if is_space c then lstrip rest else s
  end.

Fixpoint rstrip (s : string) : string :=
  match s with
  | EmptyString => EmptyString
  | String c rest =>
      match rstrip rest with
      | EmptyString => if is_space c then EmptyString else String c EmptyString
      | rest' => String c rest'
      end
  end.

(** [s.strip()] *)
Definition strip (s : string) : string := lstrip (rstrip s).

(** [normalize_model_name]: only a [str] has [lower]. *)
Definition normalize_model_name (name : value) : result string :=
  if negb (truthy name) then Ok ""
  else
    match name with
    | VStr s => Ok (strip (lower s))
    | _ => Raise AttributeError
    end.

End Beta.

(** ** [update_readme_table] of [find_beta_models.py] *)

Module Readme.

(** A row of [beta_models] whose id, name and provider are strings. *)
Record text_row : Type := {
  t_id : string;
  t_name : string;
  t_provider : string
}.

(** [(a1, a2) < (b1, b2)] for tuples of strings: the first components
    that differ decide. *)
Definition key_ltb (a b : string * string) : bool :=
  if (fst a =? fst b) then (snd a <? snd b)%string
  else (fst a <? fst b)%string.

(** [lambda x: (x['provider'], x['name'])] *)
Definition sort_key (x : text_row) : string * string :=
  (t_provider x, t_name x).

(** [sorted(beta_models, key=...)]: the stable sort, as insertion of each
    row before the rows that come after it and are not smaller. *)
Fixpoint insert_row (x : text_row) (l : list text_row) : list text_row :=
  match l with
  | [] => [x]
  | y :: rest =>
      if key_ltb (sort_key y) (sort_key x) then y :: insert_row x rest
      else x :: y :: rest
  end.

Definition sorted_rows (l : list text_row) : list text_row :=
  fold_right insert_row [] l.

(** The f-string of one row of the table. *)
Definition table_line (x : text_row) : string :=
  ("| " ++ t_name x ++ " | " ++ t_id x ++ " | " ++ t_provider x ++ " |")%string.

Definition newline : string := String (ascii_of_N 10) EmptyString.

(** [sep.join(lines)] *)
Fixpoint join (sep : string) (lines : list string) : string :=
  match lines with
  | [] => EmptyString
  | [line] => line
  | line :: rest => (line ++ sep ++ join sep rest)%string
  end.

Definition table_rows (beta_models : list text_row) : list string :=
  ["| Model Name | Model ID | Provider |"; "|---|---|---|"]
    ++ map table_line (sorted_rows beta_models).

Definition markdown_table (beta_models : list text_row) : string :=
  join newline (table_rows beta_models).

Definition begin_marker : string := "<!-- BEGIN BETA_MODELS_TABLE -->".
Definition end_marker : string := "<!-- END BETA_MODELS_TABLE -->".

(** What is left of [s] after its prefix [p]. *)
Fixpoint strip_prefix (p s : string) : option string :=
  match p with
  | EmptyString => Some s
  | String a p' =>
      match s with
      | EmptyString => None
      | String b s' => if Ascii.eqb a b then strip_prefix p' s' else None
      end
  end.

(** The text before and the text after the leftmost [needle] in [hay]. *)
Fixpoint split_first (needle hay : string) : option (string * string) :=
  match strip_prefix needle hay with
  | Some rest => Some (EmptyString, rest)
  | None =>
      match hay with
      | EmptyString => None
      | String c rest =>
          match split_first needle rest with
          | Some (before, after) => Some (String c before, after)
          | None => None
          end
      end
  end.

(** [re.compile(re.escape(b) + '.*?' + re.escape(e), re.DOTALL).sub]:
    from the left, each [b] with the nearest [e] after it, and all between
    them, is replaced; the search goes on after the [e].  [repl] gives the
    replacement of a match. *)
Fixpoint sub_all (fuel : nat) (b e : string) (repl : string -> string)
    (text : string) : string :=
  match fuel with
  | O => text
  | S fuel' =>
      match split_first b text with
      | None => text
      | Some (before, rest) =>
          match split_first e rest with
          | None => text
          | Some (between, after) =>
              (before ++ repl (b ++ between ++ e)
                 ++ sub_all fuel' b e repl after)%string
          end
      end
  end.

Definition sub_between (b e : string) (repl : string -> string)
    (text : string) : string :=
  sub_all (String.length text) b e repl text.

(** The replacement template of [update_readme_table]. *)
Definition replacement (beta_models : list text_row) : string :=
  (begin_marker ++ newline ++ markdown_table beta_models ++ newline
     ++ end_marker)%string.

Section Template.

(** How [re] reads a replacement template: the replacement it gives for
    a match, or the error of a template it rejects. *)
Variable expand_template : string -> result (string -> string).

(** [update_readme_table] on the content read from the README: the
    content written back, [None] when nothing is written. *)
Definition update_readme_table (beta_models : list text_row)
    (readme_content : string) : result (option string) :=
  if negb (str_in begin_marker readme_content)
     || negb (str_in end_marker readme_content)
  then Ok None
  else
    repl <- expand_template (replacement beta_models) ;;
    Ok (Some (sub_between begin_marker end_marker repl readme_content)).

End Template.

End Readme.

(** ** [refresh-bedrock-data.py] *)

Module Collector.

(** [self.models_by_id]: model id to catalog entry, in insertion order. *)
Definition catalog : Type := list (value * dict).

(** [self.models_by_id[k]] when [k in self.models_by_id]. *)
Fixpoint catalog_get (c : catalog) (k : value) : option dict :=
  match c with
  | [] => None
  | (k', e) :: rest => if key_eqb k' k then Some e else catalog_get rest k
  end.

(** Replaces the entry stored under [k]; the stored key object stays. *)
Fixpoint catalog_replace (c : catalog) (k : value) (e : dict) : catalog :=
  match c with
  | [] => []
  | (k', e') :: rest =>
      if key_eqb k' k then (k', e) :: rest
      else (k', e') :: catalog_replace rest k e
  end.

(** [region in v] for whatever object is stored under ["regions"]. *)
Definition contains (v : value) (region : string) : result bool :=
  match v with
  | VList l => Ok (existsb (fun x => py_eq_str x region) l)
  | VStr s => Ok (str_in region s)
  | VDict d => Ok (dict_has d region)
  | _ => Raise TypeError
  end.

(** [v.append(region)]: only lists have [append]. *)
Definition append (v : value) (region : string) : result value :=
  match v with
  | VList l => Ok (VList (l ++ [VStr region]))
  | _ => Raise AttributeError
  end.

(** The body of the loop [for model in models]. *)
Definition merge_model (region : string) (model : dict) (c : catalog)
    : result catalog :=
  let model_id := get_default model "modelId" VNone in
  if negb (truthy model_id) then Ok c
  else if negb (hashable model_id) then Raise TypeError
  else
    match catalog_get c model_id with
    | None =>
        Ok (c ++ [(model_id, dict_set model "regions" (VList [VStr region]))])
    | Some entry =>
        match dict_get entry "regions" with
        | None => Raise KeyError
        | Some regions =>
            present <- contains regions region ;;
            if present then Ok c
            else
              regions' <- append regions region ;;
              Ok (catalog_replace c model_id
                    (dict_set entry "regions" regions'))
        end
    end.

(** [for model in models]: the catalog is updated in place, so what was
    merged before an exception stays merged. *)
Fixpoint merge_models (region : string) (models : list dict) (c : catalog)
    : result unit * catalog :=
  match models with
  | [] => (Ok tt, c)
  | model :: rest =>
      match merge_model region model c with
      | Ok c' => merge_models region rest c'
      | Raise e => (Raise e, c)
      end
  end.

(** The two nested loops of [deduplicate_and_collect_models] over region
    lists that have been fetched already. *)
Fixpoint merge_regions (batches : list (string * list dict)) (c : catalog)
    : result unit * catalog :=
  match batches with
  | [] => (Ok tt, c)
  | (region, models) :: rest =>
      match merge_models region models c with
      | (Ok _, c') => merge_regions rest c'
      | (Raise e, c') => (Raise e, c')
      end
  end.

(** The same loops seen as one sequence of per-descriptor steps. *)
Definition flatten (batches : list (string * list dict)) : list (string * dict) :=
  flat_map (fun b => map (fun model => (fst b, model)) (snd b)) batches.

Fixpoint merge_steps (steps : list (string * dict)) (c : catalog)
    : result unit * catalog :=
  match steps with
  | [] => (Ok tt, c)
  | (region, model) :: rest =>
      match merge_model region model c with
      | Ok c' => merge_steps rest c'
      | Raise e => (Raise e, c)
      end
  end.

(** *** The service and the collector's state *)

Record models_response : Type := { modelSummaries : option (list dict) }.
Record profiles_response : Type :=
  { inferenceProfileSummaries : option (list dict) }.

(** The boto3 clients.  The first argument is the number of service calls
    made before this one: the same request may be answered differently
    each time it is made. *)
Record service : Type := {
  describe_regions : nat -> result (list string);
  list_foundation_models : nat -> string -> result models_response;
  list_inference_profiles : nat -> string -> result profiles_response
}.

Record state : Type := {
  supported_regions : list string;
  models_by_id : catalog;
  profiles_list : list dict;
  clock : nat;
  written : list (string * string * list dict)
}.

(** [BedrockDataCollector.__init__] in a world with nothing written. *)
Definition init : state :=
  {| supported_regions := []; models_by_id := []; profiles_list := [];
     clock := 0; written := [] |}.

Definition tick (st : state) : state :=
  {| supported_regions := supported_regions st;
     models_by_id := models_by_id st;
     profiles_list := profiles_list st;
     clock := S (clock st);
     written := written st |}.

Definition set_supported_regions (l : list string) (st : state) : state :=
  {| supported_regions := l;
     models_by_id := models_by_id st;
     profiles_list := profiles_list st;
     clock := clock st;
     written := written st |}.

Definition set_models_by_id (c : catalog) (st : state) : state :=
  {| supported_regions := supported_regions st;
     models_by_id := c;
     profiles_list := profiles_list st;
     clock := clock st;
     written := written st |}.

Definition set_profiles_list (l : list dict) (st : state) : state :=
  {| supported_regions := supported_regions st;
     models_by_id := models_by_id st;
     profiles_list := l;
     clock := clock st;
     written := written st |}.

Definition write_file (dir file : string) (doc : list dict) (st : state) : state :=
  {| supported_regions := supported_regions st;
     models_by_id := models_by_id st;
     profiles_list := profiles_list st;
     clock := clock st;
     written := written st ++ [(dir, file, doc)] |}.

(** The loop [for region in all_regions] of [discover_bedrock_regions];
    [supported] is the local list built so far.  Both handlers go on with
    the next region: the first passes, the second prints the error. *)
Fixpoint probe_regions (svc : service) (all_regions : list string)
    (supported : list string) (st : state) : list string * state :=
  match all_regions with
  | [] => (supported, st)
  | region :: rest =>
      match list_foundation_models svc (clock st) region with
      | Ok response =>
          match modelSummaries response with
          | Some _ => probe_regions svc rest (supported ++ [region]) (tick st)
          | None => probe_regions svc rest supported (tick st)
          end
      | Raise e =>
          if is_boto_error e
          then probe_regions svc rest supported (tick st)
          else probe_regions svc rest supported (tick st)
      end
  end.

Definition discover_bedrock_regions (svc : service) (st : state)
    : result (list string) * state :=
  match describe_regions svc (clock st) with
  | Raise e => (Raise e, tick st)
  | Ok all_regions =>
      let '(supported, st') := probe_regions svc all_regions [] (tick st) in
      (Ok supported, set_supported_regions supported st')
  end.

Definition fetch_models_from_region (svc : service) (region : string)
    (st : state) : result (list dict) * state :=
  match list_foundation_models svc (clock st) region with
  | Ok response =>
      (Ok (match modelSummaries response with Some l => l | None => [] end),
       tick st)
  | Raise e => (Raise e, tick st)
  end.

Definition fetch_profiles_from_region (svc : service) (region : string)
    (st : state) : result (list dict) * state :=
  match list_inference_profiles svc (clock st) region with
  | Ok response =>
      (Ok (match inferenceProfileSummaries response with
           | Some l => l
           | None => []
           end),
       tick st)
  | Raise e => (Raise e, tick st)
  end.

(** [for region in self.supported_regions] of
    [deduplicate_and_collect_models]. *)
Fixpoint collect_models (svc : service) (regions : list string) (st : state)
    : result unit * state :=
  match regions with
  | [] => (Ok tt, st)
  | region :: rest =>
      match fetch_models_from_region svc region st with
      | (Raise e, st1) => (Raise e, st1)
      | (Ok models, st1) =>
          match merge_models region models (models_by_id st1) with
          | (Raise e, c) => (Raise e, set_models_by_id c st1)
          | (Ok _, c) => collect_models svc rest (set_models_by_id c st1)
          end
      end
  end.

Definition deduplicate_and_collect_models (svc : service) (st : state)
    : result unit * state :=
  collect_models svc (supported_regions st) st.

(** [profile.copy()] with ["region"] set. *)
Definition annotate (region : string) (profile : dict) : dict :=
  dict_set profile "region" (VStr region).

Fixpoint collect_profiles (svc : service) (regions : list string) (st : state)
    : result unit * state :=
  match regions with
  | [] => (Ok tt, st)
  | region :: rest =>
      match fetch_profiles_from_region svc region st with
      | (Raise e, st1) => (Raise e, st1)
      | (Ok profiles, st1) =>
          collect_profiles svc rest
            (set_profiles_list
               (profiles_list st1 ++ map (annotate region) profiles) st1)
      end
  end.

Definition collect_and_flatten_profiles (svc : service) (st : state)
    : result unit * state :=
  collect_profiles svc (supported_regions st) st.

(** Writes [models.json], then [profiles.json]. *)
Definition save_data (output_dir : string) (st : state) : state :=
  let st1 := write_file output_dir "models.json" (map snd (models_by_id st)) st in
  write_file output_dir "profiles.json" (profiles_list st1) st1.

(** How [run] ends: it returns, or [sys.exit(code)] ends the process. *)
Inductive outcome : Type :=
| Returned
| Exited (code : Z).

Definition run (svc : service) (output_dir : string) (st : state)
    : outcome * state :=
  match discover_bedrock_regions svc st with
  | (Raise _, st1) => (Exited 1, st1)
  | (Ok _, st1) =>
      match supported_regions st1 with
      | [] => (Exited 1, st1)
      | _ :: _ =>
          match deduplicate_and_collect_models svc st1 with
          | (Raise _, st2) => (Exited 1, st2)
          | (Ok _, st2) =>
              match collect_and_flatten_profiles svc st2 with
              | (Raise _, st3) => (Exited 1, st3)
              | (Ok _, st3) => (Returned, save_data output_dir st3)
              end
          end
      end
  end.

End Collector.

(** ** Vocabulary of the statements *)

Import Beta Collector.
Import Readme.

(** [s] occurs in [h] as a contiguous run of characters. *)
Definition substring (s h : string) : Prop :=
  exists a b, h = (a ++ s ++ b)%string.


(** The entry's lifecycle status is the string [LEGACY]. *)
Definition legacy (info : model_info) : bool :=
  match lifecycle_status (full_model info) with
  | Ok status => py_eq_str status "LEGACY"
  | Raise _ => false
  end.

Definition is_str (v : value) : bool :=
  match v with
  | VStr _ => true
  | _ => false
  end.

(** The entries on which the loop body raises nothing: [modelLifecycle],
    when present, is a dict, and the name of an entry that is not skipped
    is a string. *)
Definition entry_ok (info : model_info) : bool :=
  match lifecycle_status (full_model info) with
  | Ok status => py_eq_str status "LEGACY" || is_str (name info)
  | Raise _ => false
  end.

Definition well_typed (md : models_data) : bool :=
  forallb (fun item => entry_ok (snd item)) md.

(** The name is in the text, exactly or with the case folded. *)
Definition located (html_content : string) (info : model_info) : bool :=
  match name info with
  | VStr s => str_in s html_content || str_in (lower s) (lower html_content)
  | _ => false
  end.

Definition goes_found (html_content : string) (item : value * model_info) : bool :=
  negb (legacy (snd item)) && located html_content (snd item).

Definition goes_beta (html_content : string) (item : value * model_info) : bool :=
  negb (legacy (snd item)) && negb (located html_content (snd item)).

Definition row_of_item (item : value * model_info) : row :=
  row_of (fst item) (snd item).

(** The list stored under ["regions"], empty when there is none. *)
Definition regions_of (e : dict) : list value :=
  match dict_get e "regions" with
  | Some (VList l) => l
  | _ => []
  end.

(** No two of the keys are equal as dictionary keys. *)
Fixpoint keys_distinct (ks : list value) : Prop :=
  match ks with
  | [] => True
  | k :: rest => Forall (fun k' => key_eqb k' k = false) rest /\ keys_distinct rest
  end.

(** A catalog entry as the merge makes it: stored under its own model id,
    with a list of region names, none twice. *)
Definition entry_wf (x : value * dict) : Prop :=
  truthy (fst x) = true
  /\ hashable (fst x) = true
  /\ dict_get (snd x) "modelId" = Some (fst x)
  /\ exists rs, dict_get (snd x) "regions" = Some (VList (map VStr rs))
                /\ NoDup rs.

Definition catalog_inv (c : catalog) : Prop :=
  keys_distinct (map fst c) /\ Forall entry_wf c.

(** [e'] is [e] with regions added at the end of its list, and nothing
    else changed. *)
Definition entry_grows (x x' : value * dict) : Prop :=
  fst x' = fst x
  /\ exists more,
       snd x' = dict_set (snd x) "regions" (VList (regions_of (snd x) ++ more)).

(** [c'] is [c] with entries grown in place and new entries after them. *)
Definition catalog_grows (c c' : catalog) : Prop :=
  exists grown new, c' = grown ++ new /\ Forall2 entry_grows c grown.

(** The step reports the model stored under key [k]. *)
Definition sighted (k : value) (step : string * dict) : bool :=
  let model_id := get_default (snd step) "modelId" VNone in
  truthy model_id && key_eqb model_id k.

(** The regions that reported [k], in the order of the steps. *)
Definition sightings (k : value) (steps : list (string * dict)) : list string :=
  map fst (filter (sighted k) steps).

(** A list without its repetitions: every element stays where it first
    occurs. *)
Fixpoint first_sightings (l : list string) : list string :=
  match l with
  | [] => []
  | r :: rest => r :: filter (fun x => negb (x =? r)) (first_sightings rest)
  end.

(** The entry lists the regions that reported it, in the order of their
    first report. *)
Definition lists_first_sightings (steps : list (string * dict))
    (x : value * dict) : Prop :=
  regions_of (snd x) = map VStr (first_sightings (sightings (fst x) steps)).

(** The catalog is what merging [steps] into the empty catalog must give:
    it has an entry for every model sighted, and each entry lists its
    sightings. *)
Definition reflects (steps : list (string * dict)) (c : catalog) : Prop :=
  catalog_inv c
  /\ (forall k, catalog_get c k = None -> sightings k steps = [])
  /\ Forall (lists_first_sightings steps) c.

(** The [modelId] fields of the entries written to [models.json]. *)
Definition output_ids (c : catalog) : list (option value) :=
  map (fun e => dict_get e "modelId") (map snd c).

(** The entry under [k] lists [region]. *)
Definition has_region (c : catalog) (k : value) (region : string) : Prop :=
  exists e v, catalog_get c k = Some e
              /\ dict_get e "regions" = Some v
              /\ contains v region = Ok true.

(** A descriptor whose id, if it has one, can be a dictionary key. *)
Definition id_usable (model : dict) : bool :=
  let model_id := get_default model "modelId" VNone in
  negb (truthy model_id) || hashable model_id.

(** What [merge_model] can do to a catalog when it returns. *)
Inductive merged (region : string) (model : dict) (c : catalog)
    : catalog -> Prop :=
| merged_dropped :
    truthy (get_default model "modelId" VNone) = false ->
    merged region model c c
| merged_known c1 k e c2 v :
    truthy (get_default model "modelId" VNone) = true ->
    c = c1 ++ (k, e) :: c2 ->
    key_eqb k (get_default model "modelId" VNone) = true ->
    catalog_get c1 (get_default model "modelId" VNone) = None ->
    dict_get e "regions" = Some v ->
    contains v region = Ok true ->
    merged region model c c
| merged_extended c1 k e c2 l :
    truthy (get_default model "modelId" VNone) = true ->
    c = c1 ++ (k, e) :: c2 ->
    key_eqb k (get_default model "modelId" VNone) = true ->
    catalog_get c1 (get_default model "modelId" VNone) = None ->
    dict_get e "regions" = Some (VList l) ->
    existsb (fun x => py_eq_str x region) l = false ->
    merged region model c
      (c1 ++ (k, dict_set e "regions" (VList (l ++ [VStr region]))) :: c2)
| merged_new :
    truthy (get_default model "modelId" VNone) = true ->
    hashable (get_default model "modelId" VNone) = true ->
    catalog_get c (get_default model "modelId" VNone) = None ->
    merged region model c
      (c ++ [(get_default model "modelId" VNone,
              dict_set model "regions" (VList [VStr region]))]).

(** The probe made as service call number [fst p] for region [snd p]
    returns a response with a [modelSummaries] field. *)
Definition probe_succeeds (svc : service) (p : nat * string) : bool :=
  match list_foundation_models svc (fst p) (snd p) with
  | Ok response =>
      match modelSummaries response with
      | Some _ => true
      | None => false
      end
  | Raise _ => false
  end.

(** The candidates with the number of the service call that probes each,
    the first probe being call number [t]. *)
Definition numbered (t : nat) (l : list string) : list (nat * string) :=
  combine (seq t (List.length l)) l.

(** *** The catalog as a function of the steps *)

(** The id a step reports. *)
Definition step_id (step : string * dict) : value :=
  get_default (snd step) "modelId" VNone.

(** The ids the steps report, those dropped for being falsy left out. *)
Definition reported_ids (steps : list (string * dict)) : list value :=
  filter truthy (map step_id steps).

(** Keys without their repetitions: of keys equal as dictionary keys the
    first stays, where it is. *)
Fixpoint first_keys (ks : list value) : list value :=
  match ks with
  | [] => []
  | k :: rest => k :: filter (fun k' => negb (key_eqb k' k)) (first_keys rest)
  end.

(** The entry of key [k]: the first descriptor reported under [k], with
    the regions that reported [k] in the order of their first report. *)
Definition entry_of (steps : list (string * dict)) (k : value) : dict :=
  match find (sighted k) steps with
  | Some step =>
      dict_set (snd step) "regions"
        (VList (map VStr (first_sightings (sightings k steps))))
  | None => []
  end.

Definition catalog_of (steps : list (string * dict)) : catalog :=
  map (fun k => (k, entry_of steps k)) (first_keys (reported_ids steps)).

(** The entry is its first descriptor but for the regions. *)
Definition keeps_first_payload (steps : list (string * dict))
    (x : value * dict) : Prop :=
  exists step,
    find (sighted (fst x)) steps = Some step
    /\ snd x = dict_set (snd step) "regions" (VList (regions_of (snd x))).

(** What the profile listings return, region by region, the first being
    service call number [t]. *)
Fixpoint profile_batches (svc : service) (t : nat) (regions : list string)
    : list (string * list dict) :=
  match regions with
  | [] => []
  | region :: rest =>
      (region,
       match list_inference_profiles svc t region with
       | Ok response =>
           match inferenceProfileSummaries response with
           | Some l => l
           | None => []
           end
       | Raise _ => []
       end) :: profile_batches svc (S t) rest
  end.

(** What the model listings return, region by region, the first being
    service call number [t]. *)
Fixpoint model_batches (svc : service) (t : nat) (regions : list string)
    : list (string * list dict) :=
  match regions with
  | [] => []
  | region :: rest =>
      (region,
       match list_foundation_models svc t region with
       | Ok response =>
           match modelSummaries response with
           | Some l => l
           | None => []
           end
       | Raise _ => []
       end) :: model_batches svc (S t) rest
  end.

(** The profiles of the batches, each with the region it comes from. *)
Definition flatten_profiles (batches : list (string * list dict)) : list dict :=
  flat_map (fun batch => map (annotate (fst batch)) (snd batch)) batches.

(** The regions [discover_bedrock_regions] finds among the candidates
    when called in state [st]. *)
Definition supported_among (svc : service) (st : state)
    (all_regions : list string) : list string :=
  map snd (filter (probe_succeeds svc) (numbered (S (clock st)) all_regions)).

(** [models_data[k]] when [k in models_data]. *)
Fixpoint info_get (md : models_data) (k : value) : option model_info :=
  match md with
  | [] => None
  | (k', info) :: rest => if key_eqb k' k then Some info else info_get rest k
  end.

(** The model has no id to store it under, or one that can be a key. *)
Definition loadable (model : dict) : bool :=
  negb (truthy (fst (item_of model))) || hashable (fst (item_of model)).


(** The rows have the same sort key. *)
Definition same_key (k : string * string) (x : text_row) : bool :=
  (fst (sort_key x) =? fst k) && (snd (sort_key x) =? snd k).

(** [x] is not after [y] in the order of the table. *)
Definition key_le (x y : text_row) : Prop :=
  key_ltb (sort_key y) (sort_key x) = false.

Definition backslash : string := String (ascii_of_N 92) EmptyString.

(** A reading of templates that is the one of [re] on the templates
    without a backslash, which stand for themselves, and refuses the
    others. *)
Definition literal_template (template : string) : result (string -> string) :=
  if str_in backslash template then Raise OtherError
  else Ok (fun _ => template).

(** *** Inputs of the scenarios *)

(** A descriptor as a region reports it. *)
Definition descriptor (model_id model_name provider status : string) : dict :=
  [("modelId", VStr model_id); ("modelName", VStr model_name);
   ("providerName", VStr provider);
   ("modelLifecycle", VDict [("status", VStr status)])].

(** Region a reports model m1 as Foo; region b reports it as FOO. *)
Definition scenario_A : list (string * list dict) :=
  [("a", [descriptor "m1" "Foo" "P" "ACTIVE"]);
   ("b", [descriptor "m1" "FOO" "P" "ACTIVE"])].

Definition docs_text : string :=
  "...Claude 3 Opus is available... and model-x too".

Definition docs_catalog : models_data :=
  [item_of (descriptor "m1" "Claude 3 Opus" "Anthropic" "ACTIVE");
   item_of (descriptor "m2" "Claude 4 Opus" "Anthropic" "ACTIVE");
   item_of (descriptor "m3" "MODEL-X" "P" "legacy");
   item_of (descriptor "m4" "Claude 3 Opus" "Anthropic" "LEGACY");
   item_of (descriptor "m5" "" "P" "ACTIVE");
   item_of [("modelId", VStr "m6"); ("modelName", VStr "Claude 5")]].

(** Three candidate regions; every probe of r2 raises. *)
Definition scenario_D : service :=
  {| describe_regions := fun _ => Ok ["r1"; "r2"; "r3"];
     list_foundation_models := fun _ region =>
       if (region =? "r2") then Raise ClientError
       else Ok {| modelSummaries := Some [descriptor "m1" "Foo" "P" "ACTIVE"] |};
     list_inference_profiles := fun _ _ =>
       Ok {| inferenceProfileSummaries := Some [] |} |}.

(** One candidate region; the probe, service call number 1, succeeds and
    every later listing of models raises. *)
Definition scenario_E : service :=
  {| describe_regions := fun _ => Ok ["r1"];
     list_foundation_models := fun t _ =>
       if Nat.eqb t 1 then Ok {| modelSummaries := Some [] |}
       else Raise ClientError;
     list_inference_profiles := fun _ _ =>
       Ok {| inferenceProfileSummaries := Some [] |} |}.

(** Two candidate regions, both supported; each lists one model and its
    own profiles. *)
Definition scenario_P : service :=
  {| describe_regions := fun _ => Ok ["r1"; "r2"];
     list_foundation_models := fun _ _ =>
       Ok {| modelSummaries := Some [descriptor "m1" "Foo" "P" "ACTIVE"] |};
     list_inference_profiles := fun _ region =>
       Ok {| inferenceProfileSummaries :=
               Some [[("inferenceProfileId", VStr "p1");
                      ("region", VStr "elsewhere")];
                     [("inferenceProfileId", VStr (region ++ "-only"))]] |} |}.

(** Two candidate regions; every probe raises. *)
Definition scenario_none : service :=
  {| describe_regions := fun _ => Ok ["r1"; "r2"];
     list_foundation_models := fun _ _ => Raise ClientError;
     list_inference_profiles := fun _ _ =>
       Ok {| inferenceProfileSummaries := Some [] |} |}.

Definition beta_rows : list text_row :=
  [{| t_id := "m2"; t_name := "Nova"; t_provider := "Amazon" |};
   {| t_id := "m7"; t_name := "Claude 5"; t_provider := "Anthropic" |};
   {| t_id := "m1"; t_name := "Command"; t_provider := "Amazon" |}].

Definition readme_text : string :=
  ("# Models" ++ newline ++ begin_marker ++ newline ++ "old table" ++ newline
     ++ end_marker ++ newline ++ "footer")%string.

(** ** Strings *)

Lemma prefix_iff_app (n h : string) :
  String.prefix n h = true <-> exists b, h = (n ++ b)%string.
Proof.
  revert h. induction n as [|c n IH]; intros h.
  - destruct h; simpl; split; eauto.
  - destruct h as [|d h]; simpl.
    + split; [discriminate | intros [b Hb]; discriminate].
    + destruct (ascii_dec c d) as [->|Hne].
      * rewrite IH. split; intros [b Hb]; exists b; congruence.
      * split; [discriminate | intros [b Hb]; congruence].
Qed.

Lemma str_in_iff_substring (n h : string) :
  str_in n h = true <-> substring n h.
Proof.
  unfold substring. induction h as [|c h IH].
  - unfold str_in. rewrite orb_false_r, prefix_iff_app. split.
    + intros [b Hb]. exists "", b. exact Hb.
    + intros [a [b Hab]]. destruct a; simpl in Hab.
      * eauto.
      * discriminate.
  - change (str_in n (String c h))
      with (String.prefix n (String c h) || str_in n h).
    rewrite orb_true_iff, prefix_iff_app, IH. split.
    + intros [[b Hb] | [a [b Hab]]].
      * exists "", b. exact Hb.
      * exists (String c a), b. simpl. congruence.
    + intros [a [b Hab]]. destruct a as [|d a]; simpl in Hab.
      * left. eauto.
      * right. exists a, b. congruence.
Qed.

Lemma str_in_empty (h : string) : str_in "" h = true.
Proof. destruct h; reflexivity. Qed.



(** ** The beta classifier *)

Section Classifier.

Variable html_content : string.

(** What one iteration does to the two lists, entry by entry. *)
Lemma loop_body_ok (beta_models found_models : list row)
    (item : value * model_info) :
  entry_ok (snd item) = true ->
  loop_body html_content (beta_models, found_models) item
  = Ok (beta_models ++ map row_of_item (filter (goes_beta html_content) [item]),
        found_models ++ map row_of_item (filter (goes_found html_content) [item])).
Proof.
  destruct item as [model_id info].
  unfold entry_ok, loop_body, goes_beta, goes_found, legacy, located; simpl.
  destruct (lifecycle_status (full_model info)) as [status|e]; [|discriminate].
  simpl. destruct (py_eq_str status "LEGACY"); simpl.
  - intros _. now rewrite !app_nil_r.
  - destruct (name info); try discriminate. intros _. simpl.
    destruct (str_in s html_content); simpl.
    + now rewrite app_nil_r.
    + destruct (str_in (lower s) (lower html_content)); simpl;
        now rewrite app_nil_r.
Qed.

Lemma loop_body_raises (acc : list row * list row) (item : value * model_info) :
  entry_ok (snd item) = false ->
  exists e, loop_body html_content acc item = Raise e.
Proof.
  destruct item as [model_id info], acc as [beta_models found_models].
  unfold entry_ok, loop_body; simpl.
  destruct (lifecycle_status (full_model info)) as [status|e]; simpl.
  - destruct (py_eq_str status "LEGACY"); simpl; [discriminate|].
    destruct (name info); simpl; try discriminate; eauto.
  - eauto.
Qed.

Lemma loop_ok (items : models_data) (beta_models found_models : list row) :
  well_typed items = true ->
  loop html_content items (beta_models, found_models)
  = Ok (beta_models ++ map row_of_item (filter (goes_beta html_content) items),
        found_models ++ map row_of_item (filter (goes_found html_content) items)).
Proof.
  revert beta_models found_models.
  induction items as [|item items IH]; intros beta_models found_models Hwt.
  - simpl. now rewrite !app_nil_r.
  - simpl in Hwt. apply andb_true_iff in Hwt as [Hitem Hrest].
    cbn [loop]. rewrite (loop_body_ok _ _ _ Hitem). cbn [bind].
    rewrite (IH _ _ Hrest).
    change (item :: items) with ([item] ++ items).
    now rewrite !filter_app, !map_app, !app_assoc.
Qed.

Lemma loop_returns_well_typed (items : models_data)
    (acc out : list row * list row) :
  loop html_content items acc = Ok out -> well_typed items = true.
Proof.
  revert acc. induction items as [|item items IH]; intros acc H.
  - reflexivity.
  - cbn [loop] in H. simpl.
    destruct (entry_ok (snd item)) eqn:Hitem.
    + destruct acc as [b f]. rewrite (loop_body_ok _ _ _ Hitem) in H.
      cbn [bind] in H. simpl. eauto.
    + destruct (loop_body_raises acc item Hitem) as [e He].
      rewrite He in H. discriminate.
Qed.

(** The result of the whole function on a well-typed catalog. *)
Lemma find_beta_models_ok (md : models_data) :
  well_typed md = true ->
  find_beta_models md html_content
  = Ok (map row_of_item (filter (goes_beta html_content) md),
        map row_of_item (filter (goes_found html_content) md)).
Proof. intros Hwt. unfold find_beta_models. now rewrite loop_ok. Qed.

Lemma find_beta_models_returns (md : models_data) (beta found : list row) :
  find_beta_models md html_content = Ok (beta, found) ->
  beta = map row_of_item (filter (goes_beta html_content) md)
  /\ found = map row_of_item (filter (goes_found html_content) md).
Proof.
  intros H. pose proof (loop_returns_well_typed _ _ _ H) as Hwt.
  rewrite (find_beta_models_ok _ Hwt) in H. now inversion H.
Qed.

End Classifier.

(** A dict binds a key once: two items with the same id are one item. *)
Lemma unique_key_same_info (md : models_data) (model_id : value)
    (info info' : model_info) :
  NoDup (map fst md) ->
  In (model_id, info) md -> In (model_id, info') md -> info = info'.
Proof.
  induction md as [|[k i] md IH]; simpl; intros Hnd H1 H2; [contradiction|].
  inversion Hnd as [|? ? Hnotin Hnd']; subst.
  destruct H1 as [H1|H1], H2 as [H2|H2].
  - congruence.
  - inversion H1; subst. exfalso. apply Hnotin.
    now apply (in_map fst) in H2.
  - inversion H2; subst. exfalso. apply Hnotin.
    now apply (in_map fst) in H1.
  - eauto.
Qed.

(** An entry's row is in the rows selected by [p] exactly when [p]
    selects the entry. *)
Lemma row_in_selected (p : value * model_info -> bool) (md : models_data)
    (model_id : value) (info : model_info) :
  NoDup (map fst md) ->
  In (model_id, info) md ->
  In (row_of model_id info) (map row_of_item (filter p md))
  <-> p (model_id, info) = true.
Proof.
  intros Hnd Hin. split.
  - intros H. apply in_map_iff in H as [[k i] [Heq Hsel]].
    apply filter_In in Hsel as [Hin' Hpk].
    unfold row_of_item, row_of in Heq. simpl in Heq.
    assert (k = model_id) by congruence. subst k.
    rewrite (unique_key_same_info md model_id info i Hnd Hin Hin').
    exact Hpk.
  - intros H. apply in_map_iff. exists (model_id, info). split; [reflexivity|].
    apply filter_In. now split.
Qed.

Lemma py_eq_str_iff (v : value) (s : string) :
  py_eq_str v s = true <-> v = VStr s.
Proof.
  destruct v; simpl; try (split; [discriminate | intros H; discriminate]).
  rewrite String.eqb_eq. split; congruence.
Qed.

Lemma legacy_iff (info : model_info) :
  legacy info = true <-> lifecycle_status (full_model info) = Ok (VStr "LEGACY").
Proof.
  unfold legacy. destruct (lifecycle_status (full_model info)) as [status|e].
  - rewrite py_eq_str_iff. split; congruence.
  - split; discriminate.
Qed.


(** Rows of the two partitions come from different entries. *)
Lemma partitions_disjoint (html_content : string) (md : models_data) (x : row) :
  NoDup (map fst md) ->
  In x (map row_of_item (filter (goes_beta html_content) md)) ->
  ~ In x (map row_of_item (filter (goes_found html_content) md)).
Proof.
  intros Hnd Hb Hf.
  apply in_map_iff in Hb as [[k i] [Hx Hb]].
  apply in_map_iff in Hf as [[k' i'] [Hx' Hf]].
  apply filter_In in Hb as [Hin Hb]. apply filter_In in Hf as [Hin' Hf].
  subst x. unfold row_of_item, row_of in Hx'. simpl in Hx'.
  assert (k' = k) by congruence. subst k'.
  rewrite (unique_key_same_info md k i' i Hnd Hin' Hin) in Hf.
  unfold goes_beta, goes_found in *. simpl in *.
  destruct (legacy i), (located html_content i); discriminate.
Qed.

(** *** Claims about the classifier *)


(** C1, as the code has it: an entry that is not LEGACY and whose name is
    the empty string is classified found, and never beta, whatever the
    text. *)
Theorem empty_name_is_found (md : models_data) (html_content : string)
    (model_id : value) (info : model_info) :
  NoDup (map fst md) ->
  well_typed md = true ->
  In (model_id, info) md ->
  legacy info = false ->
  name info = VStr "" ->
  exists beta found,
    find_beta_models md html_content = Ok (beta, found)
    /\ In (row_of model_id info) found
    /\ ~ In (row_of model_id info) beta.
Proof.
  intros Hnd Hwt Hin Hleg Hs.
  eexists _, _. split; [apply find_beta_models_ok; exact Hwt|].
  assert (Hf : goes_found html_content (model_id, info) = true).
  { unfold goes_found, located; simpl. rewrite Hleg, Hs, str_in_empty.
    reflexivity. }
  split.
  - now apply row_in_selected.
  - intros Hb. apply (partitions_disjoint _ _ _ Hnd Hb).
    now apply row_in_selected.
Qed.

(** C5: when the classifier returns, a LEGACY entry is in neither
    partition. *)
Theorem legacy_in_neither_partition (md : models_data) (html_content : string)
    (beta found : list row) (model_id : value) (info : model_info) :
  find_beta_models md html_content = Ok (beta, found) ->
  NoDup (map fst md) ->
  In (model_id, info) md ->
  lifecycle_status (full_model info) = Ok (VStr "LEGACY") ->
  ~ In (row_of model_id info) found /\ ~ In (row_of model_id info) beta.
Proof.
  intros Hrun Hnd Hin Hleg. apply legacy_iff in Hleg.
  apply find_beta_models_returns in Hrun as [-> ->].
  rewrite !row_in_selected by assumption.
  unfold goes_found, goes_beta; simpl. rewrite Hleg. simpl.
  split; discriminate.
Qed.

(** C10: only the status string LEGACY makes the classifier skip an entry.
    An entry without [modelLifecycle], without [status], or with any other
    status is in exactly one partition; the partitions are disjoint and
    hold rows of entries that are not LEGACY only. *)
Theorem only_LEGACY_is_skipped (md : models_data) (html_content : string) :
  NoDup (map fst md) ->
  well_typed md = true ->
  exists beta found,
    find_beta_models md html_content = Ok (beta, found)
    /\ (forall x, In x beta -> ~ In x found)
    /\ (forall x, In x beta \/ In x found ->
        exists model_id info,
          In (model_id, info) md /\ legacy info = false
          /\ x = row_of model_id info)
    /\ (forall model_id info, In (model_id, info) md ->
        (legacy info = true
         <-> lifecycle_status (full_model info) = Ok (VStr "LEGACY"))
        /\ (dict_get (full_model info) "modelLifecycle" = None ->
            legacy info = false)
        /\ (forall d, dict_get (full_model info) "modelLifecycle" = Some (VDict d) ->
            dict_get d "status" = None -> legacy info = false)
        /\ (forall d status,
            dict_get (full_model info) "modelLifecycle" = Some (VDict d) ->
            dict_get d "status" = Some status -> status <> VStr "LEGACY" ->
            legacy info = false)
        /\ (legacy info = true ->
            ~ In (row_of model_id info) found /\ ~ In (row_of model_id info) beta)
        /\ (legacy info = false ->
            (In (row_of model_id info) found /\ ~ In (row_of model_id info) beta)
            \/ (In (row_of model_id info) beta /\ ~ In (row_of model_id info) found))).
Proof.
  intros Hnd Hwt.
  eexists _, _. split; [apply find_beta_models_ok; exact Hwt|].
  split; [intros x; now apply partitions_disjoint|]. split.
  - intros x [H|H]; apply in_map_iff in H as [[k i] [Hx H]];
      apply filter_In in H as [Hin H]; exists k, i;
      (split; [exact Hin|]); (split; [|now rewrite <- Hx]);
      unfold goes_beta, goes_found in H; simpl in H;
      destruct (legacy i); [discriminate|reflexivity|discriminate|reflexivity].
  - intros model_id info Hin.
    split; [apply legacy_iff|].
    split.
    { intros Hnone. unfold legacy, lifecycle_status, get_default.
      rewrite Hnone. reflexivity. }
    split.
    { intros d Hd Hnone. unfold legacy, lifecycle_status, get_default.
      rewrite Hd, Hnone. reflexivity. }
    split.
    { intros d status Hd Hst Hne. unfold legacy, lifecycle_status, get_default.
      rewrite Hd, Hst. apply not_true_iff_false. intros H.
      apply py_eq_str_iff in H. contradiction. }
    rewrite !row_in_selected by assumption.
    unfold goes_found, goes_beta; simpl.
    destruct (legacy info), (located html_content info); simpl; split;
      try discriminate; intros _; try (split; discriminate); auto.
Qed.

(** ** Keys, dictionaries and catalogs *)

Lemma key_eqb_sym (a b : value) : key_eqb a b = key_eqb b a.
Proof.
  destruct a as [|x|x|x|x|x], b as [|y|y|y|y|y]; simpl;
    try reflexivity; try apply Z.eqb_sym.
  - now destruct x, y.
  - apply String.eqb_sym.
Qed.

Lemma key_eqb_refl (a : value) : hashable a = true -> key_eqb a a = true.
Proof.
  destruct a as [|x|x|x|x|x]; simpl; try discriminate; intros _.
  - reflexivity.
  - now destruct x.
  - apply Z.eqb_refl.
  - apply String.eqb_refl.
Qed.

Lemma key_eqb_trans (a b c : value) :
  key_eqb a b = true -> key_eqb b c = key_eqb a c.
Proof.
  destruct a as [|x|x|x|x|x], b as [|y|y|y|y|y]; simpl;
    try discriminate; intros H.
  - reflexivity.
  - apply eqb_prop in H. now subst.
  - apply Z.eqb_eq in H. subst y.
    destruct c as [|z|z|z|z|z]; simpl; try reflexivity. now destruct x, z.
  - apply Z.eqb_eq in H. subst x.
    destruct c as [|z|z|z|z|z]; simpl; try reflexivity. now destruct y, z.
  - apply Z.eqb_eq in H. now subst.
  - apply String.eqb_eq in H. now subst.
Qed.

Lemma key_eqb_hashable (a b : value) : key_eqb a b = true -> hashable a = true.
Proof. destruct a, b; simpl; congruence. Qed.

Lemma dict_get_set_same (d : dict) (k : string) (v : value) :
  dict_get (dict_set d k v) k = Some v.
Proof.
  induction d as [|[k' v'] d IH]; simpl.
  - now rewrite String.eqb_refl.
  - destruct (k' =? k) eqn:E; simpl; now rewrite E.
Qed.

Lemma dict_get_set_other (d : dict) (k k2 : string) (v : value) :
  k2 <> k -> dict_get (dict_set d k v) k2 = dict_get d k2.
Proof.
  intros Hne. induction d as [|[k' v'] d IH]; simpl.
  - destruct (k =? k2) eqn:E; [|reflexivity].
    apply String.eqb_eq in E. congruence.
  - destruct (k' =? k) eqn:E; simpl.
    + apply String.eqb_eq in E. subst k'.
      destruct (k =? k2) eqn:E2; [|reflexivity].
      apply String.eqb_eq in E2. congruence.
    + now rewrite IH.
Qed.

Lemma dict_set_set (d : dict) (k : string) (v v' : value) :
  dict_set (dict_set d k v) k v' = dict_set d k v'.
Proof.
  induction d as [|[k' w] d IH]; simpl.
  - now rewrite String.eqb_refl.
  - destruct (k' =? k) eqn:E; simpl; rewrite E; congruence.
Qed.

Lemma dict_set_same (d : dict) (k : string) (v : value) :
  dict_get d k = Some v -> dict_set d k v = d.
Proof.
  induction d as [|[k' w] d IH]; simpl; [discriminate|].
  destruct (k' =? k) eqn:E; intros H.
  - congruence.
  - now rewrite IH.
Qed.

Lemma regions_of_set (d : dict) (l : list value) :
  regions_of (dict_set d "regions" (VList l)) = l.
Proof. unfold regions_of. now rewrite dict_get_set_same. Qed.

Lemma catalog_get_none (c : catalog) (k : value) :
  catalog_get c k = None
  <-> Forall (fun k' => key_eqb k' k = false) (map fst c).
Proof.
  induction c as [|[k' e] c IH]; simpl.
  - split; auto.
  - destruct (key_eqb k' k) eqn:E.
    + split; [discriminate|]. intros H. inversion H; congruence.
    + rewrite IH. split; [now constructor | intros H; now inversion H].
Qed.

Lemma catalog_get_app (c c' : catalog) (k : value) :
  catalog_get (c ++ c') k
  = match catalog_get c k with
    | Some e => Some e
    | None => catalog_get c' k
    end.
Proof.
  induction c as [|[k' e] c IH]; simpl; [reflexivity|].
  now destruct (key_eqb k' k).
Qed.

Lemma catalog_get_equal_keys (c : catalog) (a b : value) :
  key_eqb a b = true -> catalog_get c a = catalog_get c b.
Proof.
  intros Hab. induction c as [|[k' e] c IH]; simpl; [reflexivity|].
  rewrite (key_eqb_sym k' a), (key_eqb_sym k' b).
  now rewrite (key_eqb_trans a b k' Hab), IH.
Qed.

(** The entry a lookup returns, and where it is. *)
Lemma catalog_get_split (c : catalog) (k : value) (e : dict) :
  catalog_get c k = Some e ->
  exists c1 k' c2,
    c = c1 ++ (k', e) :: c2 /\ key_eqb k' k = true /\ catalog_get c1 k = None.
Proof.
  induction c as [|[k' e'] c IH]; simpl; [discriminate|].
  destruct (key_eqb k' k) eqn:E; intros H.
  - inversion H; subst. now exists [], k', c.
  - destruct (IH H) as (c1 & k1 & c2 & -> & Hk & Hnone).
    exists ((k', e') :: c1), k1, c2. simpl. now rewrite E.
Qed.

Lemma catalog_replace_split (c1 c2 : catalog) (k k' : value) (e e' : dict) :
  key_eqb k' k = true -> catalog_get c1 k = None ->
  catalog_replace (c1 ++ (k', e) :: c2) k e' = c1 ++ (k', e') :: c2.
Proof.
  intros Hk. induction c1 as [|[k1 e1] c1 IH]; simpl.
  - now rewrite Hk.
  - destruct (key_eqb k1 k); [discriminate|]. intros H. now rewrite IH.
Qed.

(** *** What one merge step does *)

Lemma merge_model_merged (region : string) (model : dict) (c c' : catalog) :
  merge_model region model c = Ok c' -> merged region model c c'.
Proof.
  unfold merge_model.
  destruct (truthy (get_default model "modelId" VNone)) eqn:Ht; simpl.
  2:{ intros H; inversion H; subst. now apply merged_dropped. }
  destruct (hashable (get_default model "modelId" VNone)) eqn:Hh; simpl;
    [|discriminate].
  destruct (catalog_get c (get_default model "modelId" VNone)) as [e|] eqn:Hg.
  2:{ intros H; inversion H; subst. now apply merged_new. }
  destruct (catalog_get_split _ _ _ Hg) as (c1 & k & c2 & Hc & Hk & Hnone).
  destruct (dict_get e "regions") as [v|] eqn:Hr; [|discriminate].
  destruct (contains v region) as [present|] eqn:Hp; simpl; [|discriminate].
  destruct present.
  - intros H; inversion H; subst c'. eapply merged_known; eauto.
  - destruct v; simpl in *; try discriminate.
    intros H; inversion H; subst c'. rewrite Hc.
    rewrite (catalog_replace_split c1 c2 _ k e _ Hk Hnone).
    eapply merged_extended; eauto. congruence.
Qed.

Lemma merged_merge_model (region : string) (model : dict) (c c' : catalog) :
  merged region model c c' -> merge_model region model c = Ok c'.
Proof.
  intros H. unfold merge_model.
  destruct H as [Ht | c1 k e c2 v Ht Hc Hk Hnone Hr Hp
                 | c1 k e c2 l Ht Hc Hk Hnone Hr Hp | Ht Hh Hnone];
    rewrite Ht; simpl; [reflexivity | | | ].
  - rewrite (key_eqb_hashable _ k) by now rewrite key_eqb_sym.
    simpl. rewrite Hc, catalog_get_app, Hnone. simpl. rewrite Hk, Hr, Hp.
    reflexivity.
  - rewrite (key_eqb_hashable _ k) by now rewrite key_eqb_sym.
    simpl. rewrite Hc, catalog_get_app, Hnone. simpl. rewrite Hk, Hr.
    simpl. rewrite Hp. simpl.
    now rewrite (catalog_replace_split c1 c2 _ k e _ Hk Hnone).
  - rewrite Hh. simpl. now rewrite Hnone.
Qed.

(** *** The catalog invariant *)

Lemma keys_distinct_snoc (ks : list value) (k : value) :
  keys_distinct ks ->
  Forall (fun k' => key_eqb k' k = false) ks ->
  keys_distinct (ks ++ [k]).
Proof.
  induction ks as [|k0 ks IH]; simpl; intros Hd Hk.
  - auto.
  - destruct Hd as [Hrest Hd]. inversion Hk as [|? ? Hk0 Hks]; subst.
    split; [|now apply IH].
    apply Forall_app. split; [exact Hrest|].
    constructor; [|constructor]. now rewrite key_eqb_sym.
Qed.

Lemma keys_distinct_NoDup (ks : list value) :
  keys_distinct ks -> Forall (fun k => hashable k = true) ks -> NoDup ks.
Proof.
  induction ks as [|k ks IH]; simpl; intros Hd Hh; constructor.
  - destruct Hd as [Hrest _]. inversion Hh as [|? ? Hk _]; subst.
    intros Hin. rewrite Forall_forall in Hrest.
    specialize (Hrest k Hin). now rewrite key_eqb_refl in Hrest.
  - destruct Hd as [_ Hd]. inversion Hh; subst. now apply IH.
Qed.

Lemma existsb_region_iff (rs : list string) (region : string) :
  existsb (fun x => py_eq_str x region) (map VStr rs) = true <-> In region rs.
Proof.
  induction rs as [|r rs IH]; simpl.
  - split; [discriminate | contradiction].
  - rewrite orb_true_iff, IH, String.eqb_eq. reflexivity.
Qed.

Lemma truthy_id_present (model : dict) :
  truthy (get_default model "modelId" VNone) = true ->
  dict_get model "modelId" = Some (get_default model "modelId" VNone).
Proof.
  unfold get_default. destruct (dict_get model "modelId"); [reflexivity|].
  discriminate.
Qed.

Lemma entry_wf_extended (k : value) (e : dict) (l : list value)
    (region : string) :
  entry_wf (k, e) ->
  dict_get e "regions" = Some (VList l) ->
  existsb (fun x => py_eq_str x region) l = false ->
  entry_wf (k, dict_set e "regions" (VList (l ++ [VStr region]))).
Proof.
  intros (Ht & Hh & Hid & rs & Hrs & Hnd) Hl Hnew. simpl in *.
  rewrite Hl in Hrs. inversion Hrs; subst l.
  repeat split; simpl; try assumption.
  - rewrite dict_get_set_other by discriminate. exact Hid.
  - exists (rs ++ [region]). rewrite dict_get_set_same, map_app. split.
    + reflexivity.
    + apply NoDup_app; [exact Hnd | repeat constructor; auto |].
      intros x Hx [<-|[]]. apply existsb_region_iff in Hx. congruence.
Qed.

Lemma entry_wf_new (model : dict) (region : string) :
  truthy (get_default model "modelId" VNone) = true ->
  hashable (get_default model "modelId" VNone) = true ->
  entry_wf (get_default model "modelId" VNone,
            dict_set model "regions" (VList [VStr region])).
Proof.
  intros Ht Hh. repeat split; simpl; try assumption.
  - rewrite dict_get_set_other by discriminate. now apply truthy_id_present.
  - exists [region]. rewrite dict_get_set_same. split; [reflexivity|].
    repeat constructor. auto.
Qed.

Lemma merged_keeps_inv (region : string) (model : dict) (c c' : catalog) :
  merged region model c c' -> catalog_inv c -> catalog_inv c'.
Proof.
  intros H [Hkeys Hwf].
  destruct H as [Ht | c1 k e c2 v Ht Hc Hk Hnone Hr Hp
                 | c1 k e c2 l Ht Hc Hk Hnone Hr Hp | Ht Hh Hnone].
  - now split.
  - now split.
  - subst c. split.
    + rewrite map_app in *. exact Hkeys.
    + apply Forall_app in Hwf as [H1 H2]. inversion H2; subst.
      apply Forall_app. split; [exact H1|]. constructor; [|assumption].
      now apply entry_wf_extended.
  - split.
    + rewrite map_app. simpl. apply keys_distinct_snoc; [exact Hkeys|].
      now apply catalog_get_none.
    + apply Forall_app. split; [exact Hwf|]. constructor; [|constructor].
      now apply entry_wf_new.
Qed.

Lemma catalog_inv_nil : catalog_inv [].
Proof. split; simpl; auto. Qed.

(** The [modelId] fields written out are the keys of the catalog. *)
Lemma output_ids_keys (c : catalog) :
  Forall entry_wf c -> output_ids c = map (@Some value) (map fst c).
Proof.
  unfold output_ids. induction 1 as [|[k e] c Hx _ IH]; simpl; [reflexivity|].
  destruct Hx as (_ & _ & Hid & _). simpl in Hid. now rewrite Hid, IH.
Qed.

Lemma NoDup_map_Some (A : Type) (l : list A) :
  NoDup l -> NoDup (map (@Some A) l).
Proof.
  induction 1 as [|x l Hx _ IH]; simpl; constructor; [|exact IH].
  intros Hin. apply in_map_iff in Hin as [y [Hy Hin]].
  inversion Hy; subst. contradiction.
Qed.

Lemma catalog_inv_output_ids (c : catalog) :
  catalog_inv c -> NoDup (output_ids c).
Proof.
  intros [Hkeys Hwf]. rewrite (output_ids_keys c Hwf).
  apply NoDup_map_Some.
  apply keys_distinct_NoDup; [exact Hkeys|].
  apply Forall_map. eapply Forall_impl; [|exact Hwf].
  intros x (_ & Hh & _). exact Hh.
Qed.

(** *** Growth *)

Lemma entry_grows_refl (x : value * dict) : entry_wf x -> entry_grows x x.
Proof.
  intros (_ & _ & _ & rs & Hrs & _). split; [reflexivity|]. exists [].
  unfold regions_of. rewrite Hrs, app_nil_r. symmetry.
  now apply dict_set_same.
Qed.

Lemma entry_grows_trans (x y z : value * dict) :
  entry_grows x y -> entry_grows y z -> entry_grows x z.
Proof.
  intros [Hk1 [m1 H1]] [Hk2 [m2 H2]]. split; [congruence|].
  exists (m1 ++ m2). rewrite H2, H1, regions_of_set, dict_set_set.
  now rewrite app_assoc.
Qed.

Lemma Forall2_entry_grows_refl (c : catalog) :
  Forall entry_wf c -> Forall2 entry_grows c c.
Proof.
  induction 1; constructor; auto using entry_grows_refl.
Qed.

Lemma Forall2_entry_grows_trans (a b c : catalog) :
  Forall2 entry_grows a b -> Forall2 entry_grows b c ->
  Forall2 entry_grows a c.
Proof.
  intros Hab. revert c. induction Hab; intros c Hbc; inversion Hbc; subst.
  - constructor.
  - constructor; eauto using entry_grows_trans.
Qed.

Lemma catalog_grows_refl (c : catalog) :
  Forall entry_wf c -> catalog_grows c c.
Proof.
  intros H. exists c, []. rewrite app_nil_r.
  split; [reflexivity | now apply Forall2_entry_grows_refl].
Qed.

Lemma catalog_grows_trans (a b c : catalog) :
  catalog_grows a b -> catalog_grows b c -> catalog_grows a c.
Proof.
  intros (g1 & n1 & -> & H1) (g2 & n2 & -> & H2).
  apply Forall2_app_inv_l in H2 as (g2a & g2b & Ha & Hb & ->).
  exists g2a, (g2b ++ n2). rewrite app_assoc. split; [reflexivity|].
  eapply Forall2_entry_grows_trans; eauto.
Qed.

Lemma merged_grows (region : string) (model : dict) (c c' : catalog) :
  merged region model c c' -> Forall entry_wf c -> catalog_grows c c'.
Proof.
  intros H Hwf.
  destruct H as [Ht | c1 k e c2 v Ht Hc Hk Hnone Hr Hp
                 | c1 k e c2 l Ht Hc Hk Hnone Hr Hp | Ht Hh Hnone].
  - now apply catalog_grows_refl.
  - now apply catalog_grows_refl.
  - subst c. apply Forall_app in Hwf as [H1 H2]. inversion H2; subst.
    eexists _, []. rewrite app_nil_r. split; [reflexivity|].
    apply Forall2_app; [now apply Forall2_entry_grows_refl|].
    constructor; [|now apply Forall2_entry_grows_refl].
    split; [reflexivity|]. exists [VStr region]. simpl.
    unfold regions_of. now rewrite Hr.
  - exists c, [(get_default model "modelId" VNone,
                dict_set model "regions" (VList [VStr region]))].
    split; [reflexivity | now apply Forall2_entry_grows_refl].
Qed.

(** *** Regions in the order of first sighting *)

Lemma existsb_filter_other (r a : string) (l : list string) :
  existsb (String.eqb r) (filter (fun x => negb (x =? a)) l)
  = existsb (String.eqb r) l && negb (r =? a).
Proof.
  induction l as [|x l IH]; simpl; [reflexivity|].
  destruct (x =? a) eqn:Exa; simpl; rewrite IH.
  - apply String.eqb_eq in Exa. subst x.
    destruct (r =? a); simpl; [now rewrite andb_false_r | reflexivity].
  - destruct (r =? x) eqn:Erx; simpl; [|reflexivity].
    apply String.eqb_eq in Erx. subst x. now rewrite Exa.
Qed.

Lemma first_sightings_snoc (l : list string) (r : string) :
  first_sightings (l ++ [r])
  = if existsb (String.eqb r) (first_sightings l)
    then first_sightings l
    else first_sightings l ++ [r].
Proof.
  induction l as [|a l IH]; simpl; [reflexivity|].
  rewrite IH, existsb_filter_other.
  destruct (existsb (String.eqb r) (first_sightings l)); simpl.
  - now destruct (r =? a).
  - rewrite orb_false_r, filter_app. simpl.
    destruct (r =? a); simpl; [now rewrite app_nil_r | reflexivity].
Qed.

Lemma existsb_eqb_iff (r : string) (l : list string) :
  existsb (String.eqb r) l = true <-> In r l.
Proof.
  rewrite existsb_exists. split.
  - intros [x [Hin Hx]]. apply String.eqb_eq in Hx. now subst.
  - intros Hin. exists r. split; [exact Hin | apply String.eqb_refl].
Qed.

Lemma sightings_snoc (k : value) (steps : list (string * dict))
    (step : string * dict) :
  sightings k (steps ++ [step])
  = sightings k steps ++ (if sighted k step then [fst step] else []).
Proof.
  unfold sightings. rewrite filter_app, map_app. simpl.
  now destruct (sighted k step).
Qed.

Lemma keys_distinct_app_r (a b : list value) :
  keys_distinct (a ++ b) -> keys_distinct b.
Proof. induction a as [|x a IH]; simpl; [auto | intros [_ H]; auto]. Qed.

(** An entry the step does not report keeps listing its sightings. *)
Lemma lists_first_sightings_other (steps : list (string * dict))
    (step : string * dict) (x : value * dict) :
  sighted (fst x) step = false ->
  lists_first_sightings steps x ->
  lists_first_sightings (steps ++ [step]) x.
Proof.
  unfold lists_first_sightings. intros Hs H.
  now rewrite sightings_snoc, Hs, app_nil_r.
Qed.

Lemma Forall_lists_first_sightings_other (steps : list (string * dict))
    (region : string) (model : dict) (c : catalog) :
  Forall (fun k' => key_eqb k' (get_default model "modelId" VNone) = false)
    (map fst c) ->
  Forall (lists_first_sightings steps) c ->
  Forall (lists_first_sightings (steps ++ [(region, model)])) c.
Proof.
  intros Hk H. rewrite Forall_map in Hk. rewrite Forall_forall in *.
  intros x Hx. apply lists_first_sightings_other; [|now apply H].
  unfold sighted; simpl. rewrite key_eqb_sym, (Hk x Hx).
  apply andb_false_r.
Qed.

(** The keys after the entry found under the id are other keys. *)
Lemma keys_after_found (c1 c2 : catalog) (k : value) (e : dict)
    (model_id : value) :
  keys_distinct (map fst (c1 ++ (k, e) :: c2)) ->
  key_eqb k model_id = true ->
  Forall (fun k' => key_eqb k' model_id = false) (map fst c2).
Proof.
  intros Hd Hk. rewrite map_app in Hd. apply keys_distinct_app_r in Hd.
  simpl in Hd. destruct Hd as [Hrest _].
  eapply Forall_impl; [|exact Hrest]. intros k' Hk'. simpl in Hk'.
  rewrite key_eqb_sym, <- (key_eqb_trans k model_id k' Hk) in Hk'.
  now rewrite key_eqb_sym.
Qed.

Lemma found_entry_lookup (c1 c2 : catalog) (k : value) (e : dict)
    (model_id : value) :
  key_eqb k model_id = true -> catalog_get c1 model_id = None ->
  catalog_get (c1 ++ (k, e) :: c2) model_id = Some e.
Proof. intros Hk Hnone. rewrite catalog_get_app, Hnone. simpl. now rewrite Hk. Qed.

Lemma unsighted_stays_unsighted (steps : list (string * dict))
    (region : string) (model : dict) (c : catalog) (e : dict) (k3 : value) :
  catalog_get c (get_default model "modelId" VNone) = Some e ->
  (forall k, catalog_get c k = None -> sightings k steps = []) ->
  catalog_get c k3 = None ->
  sightings k3 (steps ++ [(region, model)]) = [].
Proof.
  intros Hfound Hun Hnone. rewrite sightings_snoc, (Hun k3 Hnone).
  unfold sighted; simpl.
  destruct (key_eqb (get_default model "modelId" VNone) k3) eqn:E.
  - rewrite (catalog_get_equal_keys c _ _ E) in Hfound. congruence.
  - now rewrite andb_false_r.
Qed.

Lemma merged_reflects (steps : list (string * dict)) (region : string)
    (model : dict) (c c' : catalog) :
  merged region model c c' ->
  reflects steps c -> reflects (steps ++ [(region, model)]) c'.
Proof.
  intros H Hrefl. pose proof Hrefl as (Hinv & Hun & Hfs).
  split; [now apply (merged_keeps_inv region model c c')|].
  destruct Hinv as [Hkeys Hwf].
  destruct H as [Ht | c1 k e c2 v Ht Hc Hk Hnone Hr Hp
                 | c1 k e c2 l Ht Hc Hk Hnone Hr Hp | Ht Hh Hnone].
  - (* no id: nothing is sighted *)
    assert (Hs : forall k, sighted k (region, model) = false).
    { intros k. unfold sighted; simpl. now rewrite Ht. }
    split.
    + intros k Hk. now rewrite sightings_snoc, Hs, (Hun k Hk).
    + eapply Forall_impl; [|exact Hfs]. intros x.
      now apply lists_first_sightings_other.
  - (* known model, known region *)
    subst c. split.
    + intros k3. eapply unsighted_stays_unsighted; eauto.
      now apply found_entry_lookup.
    + apply Forall_app in Hfs as [Hfs1 Hfs2]. inversion Hfs2 as [|? ? Hx Hfs2']; subst.
      apply Forall_app. split.
      { apply Forall_lists_first_sightings_other; [|exact Hfs1].
        now apply catalog_get_none. }
      constructor.
      2:{ apply Forall_lists_first_sightings_other; [|exact Hfs2'].
          eapply keys_after_found; eauto. }
      apply Forall_app in Hwf as [_ Hwf2]. inversion Hwf2 as [|? ? Hwfx _]; subst.
      destruct Hwfx as (_ & _ & _ & rs & Hrs & _). simpl in Hrs.
      unfold lists_first_sightings in *. simpl in *.
      rewrite sightings_snoc. unfold sighted; simpl.
      rewrite Ht, (key_eqb_sym _ k), Hk. simpl.
      rewrite first_sightings_snoc.
      rewrite Hr in Hrs. inversion Hrs; subst v.
      unfold regions_of in Hx. rewrite Hr in Hx. rewrite Hx in Hp.
      simpl in Hp. inversion Hp as [Hp'].
      apply existsb_region_iff, existsb_eqb_iff in Hp'. rewrite Hp'.
      unfold regions_of. now rewrite Hr.
  - (* known model, new region *)
    subst c. split.
    + intros k3 Hk3. eapply unsighted_stays_unsighted; eauto.
      * now apply (found_entry_lookup c1 c2 k e).
      * apply catalog_get_none. apply catalog_get_none in Hk3.
        now rewrite map_app in *.
    + apply Forall_app in Hfs as [Hfs1 Hfs2]. inversion Hfs2 as [|? ? Hx Hfs2']; subst.
      apply Forall_app. split.
      { apply Forall_lists_first_sightings_other; [|exact Hfs1].
        now apply catalog_get_none. }
      constructor.
      2:{ apply Forall_lists_first_sightings_other; [|exact Hfs2'].
          eapply keys_after_found; eauto. }
      unfold lists_first_sightings in *. simpl in *.
      rewrite sightings_snoc. unfold sighted; simpl.
      rewrite Ht, (key_eqb_sym _ k), Hk. simpl.
      rewrite first_sightings_snoc, regions_of_set.
      unfold regions_of in Hx. rewrite Hr in Hx. rewrite Hx in Hp.
      destruct (existsb (String.eqb region)
                  (first_sightings (sightings k steps))) eqn:E.
      * apply existsb_eqb_iff, existsb_region_iff in E. congruence.
      * now rewrite Hx, map_app.
  - (* new model *)
    split.
    + intros k3 Hk3. rewrite catalog_get_app in Hk3.
      destruct (catalog_get c k3) eqn:Hc3; [discriminate|].
      simpl in Hk3. rewrite sightings_snoc, (Hun k3 Hc3).
      unfold sighted; simpl.
      destruct (key_eqb (get_default model "modelId" VNone) k3);
        [discriminate | now rewrite andb_false_r].
    + apply Forall_app. split.
      { apply Forall_lists_first_sightings_other; [|exact Hfs].
        now apply catalog_get_none. }
      constructor; [|constructor].
      unfold lists_first_sightings; simpl.
      rewrite sightings_snoc, (Hun _ Hnone). unfold sighted; simpl.
      rewrite Ht, (key_eqb_refl _ Hh). simpl.
      now rewrite regions_of_set.
Qed.

Lemma reflects_nil : reflects [] [].
Proof. split; [apply catalog_inv_nil|]. split; [reflexivity | constructor]. Qed.

(** *** Sequences of merge steps *)

Lemma merge_steps_app (s1 s2 : list (string * dict)) (c : catalog) :
  merge_steps (s1 ++ s2) c
  = match merge_steps s1 c with
    | (Ok _, c1) => merge_steps s2 c1
    | (Raise e, c1) => (Raise e, c1)
    end.
Proof.
  revert c. induction s1 as [|[region model] s1 IH]; intros c; simpl.
  - reflexivity.
  - destruct (merge_model region model c) as [c'|e]; [apply IH | reflexivity].
Qed.

Lemma merge_models_steps (region : string) (models : list dict) (c : catalog) :
  merge_models region models c
  = merge_steps (map (fun model => (region, model)) models) c.
Proof.
  revert c. induction models as [|model models IH]; intros c; simpl.
  - reflexivity.
  - destruct (merge_model region model c); [apply IH | reflexivity].
Qed.

Lemma merge_regions_steps (batches : list (string * list dict)) (c : catalog) :
  merge_regions batches c = merge_steps (flatten batches) c.
Proof.
  revert c. induction batches as [|[region models] batches IH]; intros c.
  - reflexivity.
  - unfold flatten. simpl. fold (flatten batches).
    rewrite merge_steps_app, <- merge_models_steps.
    destruct (merge_models region models c) as [[[]|e] c']; [apply IH | reflexivity].
Qed.

Lemma merge_steps_reflects (s2 s1 : list (string * dict)) (c c' : catalog) :
  reflects s1 c ->
  merge_steps s2 c = (Ok tt, c') ->
  reflects (s1 ++ s2) c' /\ catalog_grows c c'.
Proof.
  revert s1 c. induction s2 as [|[region model] s2 IH]; intros s1 c Hrefl H.
  - simpl in H. inversion H; subst. rewrite app_nil_r. split; [exact Hrefl|].
    apply catalog_grows_refl, Hrefl.
  - simpl in H.
    destruct (merge_model region model c) as [c1|e] eqn:Hstep; [|discriminate].
    apply merge_model_merged in Hstep.
    destruct (IH (s1 ++ [(region, model)]) c1 (merged_reflects _ _ _ _ _ Hstep Hrefl) H)
      as [Hrefl' Hgrows].
    rewrite <- app_assoc in Hrefl'. split; [exact Hrefl'|].
    eapply catalog_grows_trans; [|exact Hgrows].
    eapply merged_grows; [exact Hstep | apply Hrefl].
Qed.

(** The invariant holds in the catalog a failed merge leaves behind too. *)
Lemma merge_steps_keeps_inv (steps : list (string * dict)) (c c' : catalog)
    (res : result unit) :
  catalog_inv c -> merge_steps steps c = (res, c') -> catalog_inv c'.
Proof.
  revert c. induction steps as [|[region model] steps IH]; intros c Hinv H.
  - simpl in H. now inversion H; subst.
  - simpl in H.
    destruct (merge_model region model c) as [c1|e] eqn:Hstep.
    + apply merge_model_merged in Hstep. eapply IH; [|exact H].
      eapply merged_keeps_inv; eauto.
    + now inversion H; subst.
Qed.

(** *** Regions already listed *)

Lemma merge_model_total (region : string) (model : dict) (c : catalog) :
  catalog_inv c -> id_usable model = true ->
  exists c', merge_model region model c = Ok c'.
Proof.
  intros [_ Hwf] Hid. unfold id_usable in Hid. unfold merge_model.
  destruct (truthy (get_default model "modelId" VNone)); simpl in *; [|eauto].
  rewrite Hid. simpl.
  destruct (catalog_get c (get_default model "modelId" VNone)) as [e|] eqn:Hg;
    [|eauto].
  destruct (catalog_get_split _ _ _ Hg) as (c1 & k & c2 & -> & _ & _).
  apply Forall_app in Hwf as [_ Hwf]. inversion Hwf as [|? ? Hx _]; subst.
  destruct Hx as (_ & _ & _ & rs & Hrs & _). simpl in Hrs. rewrite Hrs. simpl.
  destruct (existsb _ _); simpl; eauto.
Qed.

Lemma contains_after_append (l : list value) (region rg : string) :
  contains (VList l) rg = Ok true ->
  contains (VList (l ++ [VStr region])) rg = Ok true.
Proof.
  simpl. intros H. inversion H as [H']. now rewrite existsb_app, H'.
Qed.

Lemma merged_keeps_region (region : string) (model : dict) (c c' : catalog)
    (k : value) (rg : string) :
  merged region model c c' -> has_region c k rg -> has_region c' k rg.
Proof.
  intros H (ek & v & Hget & Hv & Hin).
  destruct H as [Ht | c1 k0 e c2 v0 Ht Hc Hk Hnone Hr Hp
                 | c1 k0 e c2 l Ht Hc Hk Hnone Hr Hp | Ht Hh Hnone].
  - now exists ek, v.
  - now exists ek, v.
  - subst c. rewrite catalog_get_app in Hget. unfold has_region.
    rewrite catalog_get_app.
    destruct (catalog_get c1 k) as [e1|]; [now exists ek, v|].
    simpl in *. destruct (key_eqb k0 k); [|now exists ek, v].
    inversion Hget; subst ek. rewrite Hr in Hv. inversion Hv; subst v.
    eexists _, _. split; [reflexivity|]. rewrite dict_get_set_same.
    split; [reflexivity|]. now apply contains_after_append.
  - exists ek, v. rewrite catalog_get_app, Hget. auto.
Qed.

Lemma merged_lists_region (region : string) (model : dict) (c c' : catalog) :
  merged region model c c' ->
  truthy (get_default model "modelId" VNone) = true ->
  has_region c' (get_default model "modelId" VNone) region.
Proof.
  intros H Htruthy.
  destruct H as [Ht | c1 k0 e c2 v0 Ht Hc Hk Hnone Hr Hp
                 | c1 k0 e c2 l Ht Hc Hk Hnone Hr Hp | Ht Hh Hnone].
  - congruence.
  - subst c. exists e, v0. now rewrite found_entry_lookup.
  - eexists _, _. rewrite found_entry_lookup by assumption.
    split; [reflexivity|]. rewrite dict_get_set_same. split; [reflexivity|].
    simpl. rewrite existsb_app. simpl. now rewrite String.eqb_refl, orb_true_r.
  - eexists _, _. rewrite catalog_get_app, Hnone. simpl.
    rewrite (key_eqb_refl _ Hh). split; [reflexivity|].
    rewrite dict_get_set_same. split; [reflexivity|].
    simpl. now rewrite String.eqb_refl.
Qed.

Lemma merge_model_listed (region : string) (model : dict) (c : catalog) :
  (truthy (get_default model "modelId" VNone) = true ->
   has_region c (get_default model "modelId" VNone) region) ->
  merge_model region model c = Ok c.
Proof.
  intros H. unfold merge_model.
  destruct (truthy (get_default model "modelId" VNone)); simpl; [|reflexivity].
  destruct (H eq_refl) as (e & v & Hget & Hv & Hin).
  destruct (catalog_get_split _ _ _ Hget) as (_ & k & _ & _ & Hk & _).
  rewrite (key_eqb_hashable _ k) by now rewrite key_eqb_sym.
  simpl. now rewrite Hget, Hv, Hin.
Qed.

Lemma merge_models_lists_region (region : string) (models : list dict)
    (c : catalog) :
  catalog_inv c ->
  forallb id_usable models = true ->
  exists c1,
    merge_models region models c = (Ok tt, c1)
    /\ catalog_inv c1
    /\ (forall k rg, has_region c k rg -> has_region c1 k rg)
    /\ Forall (fun model =>
                 truthy (get_default model "modelId" VNone) = true ->
                 has_region c1 (get_default model "modelId" VNone) region)
         models.
Proof.
  revert c. induction models as [|model models IH]; intros c Hinv Hids.
  - exists c. simpl. repeat (split; auto).
  - simpl in Hids. apply andb_true_iff in Hids as [Hid Hids].
    destruct (merge_model_total region model c Hinv Hid) as [c' Hstep].
    simpl. rewrite Hstep. pose proof (merge_model_merged _ _ _ _ Hstep) as Hm.
    destruct (IH c' (merged_keeps_inv _ _ _ _ Hm Hinv) Hids)
      as (c1 & Hrun & Hinv1 & Hkeep & Hall).
    exists c1. split; [exact Hrun|]. split; [exact Hinv1|]. split.
    + intros k rg Hk. apply Hkeep. eapply merged_keeps_region; eauto.
    + constructor; [|exact Hall]. intros Ht. apply Hkeep.
      eapply merged_lists_region; eauto.
Qed.

Lemma merge_models_noop (region : string) (models : list dict) (c : catalog) :
  Forall (fun model =>
            truthy (get_default model "modelId" VNone) = true ->
            has_region c (get_default model "modelId" VNone) region)
    models ->
  merge_models region models c = (Ok tt, c).
Proof.
  induction 1 as [|model models Hm _ IH]; simpl; [reflexivity|].
  now rewrite (merge_model_listed region model c Hm).
Qed.

Lemma listed_exactly_once (c : catalog) (k : value) (region : string) :
  catalog_inv c -> has_region c k region ->
  exists entry rs,
    catalog_get c k = Some entry
    /\ dict_get entry "regions" = Some (VList (map VStr rs))
    /\ count_occ string_dec rs region = 1.
Proof.
  intros [_ Hwf] (e & v & Hget & Hv & Hin).
  destruct (catalog_get_split _ _ _ Hget) as (c1 & k' & c2 & -> & _ & _).
  apply Forall_app in Hwf as [_ Hwf]. inversion Hwf as [|? ? Hx _]; subst.
  destruct Hx as (_ & _ & _ & rs & Hrs & Hnd). simpl in Hrs.
  exists e, rs. repeat split; auto.
  rewrite Hrs in Hv. inversion Hv; subst v. simpl in Hin. inversion Hin as [Hin'].
  apply existsb_region_iff in Hin'.
  now apply (proj1 (NoDup_count_occ' string_dec rs) Hnd).
Qed.

(** Every model a completed sequence of steps reports has an entry that
    lists the reporting region. *)
Lemma merge_steps_lists_regions (steps : list (string * dict)) (c c' : catalog) :
  merge_steps steps c = (Ok tt, c') ->
  (forall k rg, has_region c k rg -> has_region c' k rg)
  /\ Forall (fun step =>
               truthy (get_default (snd step) "modelId" VNone) = true ->
               has_region c' (get_default (snd step) "modelId" VNone) (fst step))
       steps.
Proof.
  revert c. induction steps as [|[region model] steps IH]; intros c H.
  - simpl in H. inversion H; subst. auto.
  - simpl in H.
    destruct (merge_model region model c) as [c1|e] eqn:Hstep; [|discriminate].
    apply merge_model_merged in Hstep. destruct (IH c1 H) as [Hkeep Hall].
    split.
    + intros k rg Hk. apply Hkeep. eapply merged_keeps_region; eauto.
    + constructor; [|exact Hall]. simpl. intros Ht. apply Hkeep.
      eapply merged_lists_region; eauto.
Qed.

(** *** Claims about the catalog merger *)

(** Descriptor lists whose ids can be dictionary keys merge without an
    exception. *)
Lemma merge_regions_total (batches : list (string * list dict)) (c : catalog) :
  catalog_inv c ->
  forallb (fun batch => forallb id_usable (snd batch)) batches = true ->
  exists c', merge_regions batches c = (Ok tt, c').
Proof.
  revert c. induction batches as [|[region models] batches IH]; intros c Hinv H.
  - simpl. eauto.
  - simpl in H. apply andb_true_iff in H as [Hmodels Hrest].
    destruct (merge_models_lists_region region models c Hinv Hmodels)
      as (c1 & Hrun & Hinv1 & _).
    simpl. rewrite Hrun. now apply IH.
Qed.

(** C3: the catalog the merge leaves, whether it returned or raised, has
    one entry per model id, no two with the same id, and each entry lists
    its regions once.  When the merge returns, each entry lists its regions
    in the order of their first sighting and every model reported has its
    entry; this holds after every per-descriptor step, and from one step
    to a later one every entry keeps its place and its regions, with new
    regions added at the end. *)
Theorem merge_keeps_one_entry_per_model
    (batches : list (string * list dict))
    (steps1 steps2 : list (string * dict))
    (res : result unit) (c2 : catalog) :
  flatten batches = steps1 ++ steps2 ->
  merge_regions batches [] = (res, c2) ->
  catalog_inv c2
  /\ NoDup (output_ids c2)
  /\ (res = Ok tt ->
      exists c1,
        merge_steps steps1 [] = (Ok tt, c1)
        /\ catalog_inv c1
        /\ NoDup (output_ids c1)
        /\ Forall (lists_first_sightings steps1) c1
        /\ Forall (lists_first_sightings (flatten batches)) c2
        /\ Forall (fun step =>
                     truthy (get_default (snd step) "modelId" VNone) = true ->
                     has_region c2 (get_default (snd step) "modelId" VNone)
                       (fst step))
             (flatten batches)
        /\ catalog_grows c1 c2).
Proof.
  intros Hsplit Hrun. rewrite merge_regions_steps in Hrun.
  pose proof (merge_steps_keeps_inv _ _ _ _ catalog_inv_nil Hrun) as Hinv2.
  split; [exact Hinv2|]. split; [now apply catalog_inv_output_ids|].
  intros ->. pose proof Hrun as Hall.
  apply merge_steps_lists_regions in Hall as [_ Hall].
  rewrite Hsplit, merge_steps_app in Hrun.
  destruct (merge_steps steps1 []) as [[[]|e] c1] eqn:H1; [|discriminate].
  destruct (merge_steps_reflects steps1 [] [] c1 reflects_nil H1)
    as [Hrefl1 _]. simpl in Hrefl1.
  destruct (merge_steps_reflects steps2 steps1 c1 c2 Hrefl1 Hrun)
    as [Hrefl2 Hgrows].
  rewrite <- Hsplit in Hrefl2.
  exists c1. split; [reflexivity|].
  split; [apply Hrefl1|].
  split; [apply catalog_inv_output_ids, Hrefl1|].
  split; [apply Hrefl1|]. split; [apply Hrefl2|].
  split; [exact Hall | exact Hgrows].
Qed.

(** C4: a descriptor whose id is in the catalog changes nothing of the
    stored entry but its regions, to which it adds its region at most; no
    entry is added and the other entries stay.  Region a reporting m1 as
    Foo and then region b reporting m1 as FOO give one entry, named Foo, with
    regions a and b. *)
Theorem first_seen_payload_wins :
  (forall (region : string) (model : dict) (c : catalog) (entry : dict),
      catalog_inv c ->
      truthy (get_default model "modelId" VNone) = true ->
      catalog_get c (get_default model "modelId" VNone) = Some entry ->
      exists c' entry',
        merge_model region model c = Ok c'
        /\ map fst c' = map fst c
        /\ catalog_get c' (get_default model "modelId" VNone) = Some entry'
        /\ (entry' = entry
            \/ entry' = dict_set entry "regions"
                          (VList (regions_of entry ++ [VStr region])))
        /\ (forall field, field <> "regions" ->
            dict_get entry' field = dict_get entry field)
        /\ (forall k e, In (k, e) c ->
            key_eqb k (get_default model "modelId" VNone) = false ->
            In (k, e) c'))
  /\ merge_regions scenario_A []
     = (Ok tt,
        [(VStr "m1",
          [("modelId", VStr "m1"); ("modelName", VStr "Foo");
           ("providerName", VStr "P");
           ("modelLifecycle", VDict [("status", VStr "ACTIVE")]);
           ("regions", VList [VStr "a"; VStr "b"])])]).
Proof.
  split; [|reflexivity].
  intros region model c entry Hinv Ht Hget.
  assert (Hid : id_usable model = true).
  { unfold id_usable.
    destruct (catalog_get_split _ _ _ Hget) as (_ & k & _ & _ & Hk & _).
    rewrite (key_eqb_hashable _ k) by now rewrite key_eqb_sym.
    apply orb_true_r. }
  destruct (merge_model_total region model c Hinv Hid) as [c' Hstep].
  exists c'. pose proof (merge_model_merged _ _ _ _ Hstep) as Hm.
  destruct Hm as [Hf | c1 k e c2 v _ Hc Hk Hnone Hr Hp
                  | c1 k e c2 l _ Hc Hk Hnone Hr Hp | _ _ Hnone].
  - congruence.
  - exists entry. repeat (split; auto).
  - subst c. rewrite found_entry_lookup in Hget by assumption.
    inversion Hget; subst e.
    exists (dict_set entry "regions" (VList (l ++ [VStr region]))).
    split; [exact Hstep|]. split; [now rewrite !map_app|].
    split; [now apply found_entry_lookup|].
    split; [right; unfold regions_of; now rewrite Hr|].
    split; [intros field Hf; now apply dict_get_set_other|].
    intros k2 e2 Hin Hk2. apply in_app_iff in Hin. apply in_app_iff.
    destruct Hin as [Hin|[Hin|Hin]]; [now left | | right; now right].
    inversion Hin; subst. congruence.
  - congruence.
Qed.

(** C8: a descriptor without [modelId] leaves the catalog as it is and
    raises nothing, and a descriptor list gives what it gives without that
    descriptor. *)
Theorem descriptor_without_id_is_dropped (region : string) (model : dict)
    (models1 models2 : list dict) (c : catalog) :
  dict_get model "modelId" = None ->
  merge_model region model c = Ok c
  /\ merge_models region (models1 ++ model :: models2) c
     = merge_models region (models1 ++ models2) c.
Proof.
  intros Hnone.
  assert (Hstep : forall c0, merge_model region model c0 = Ok c0).
  { intros c0. unfold merge_model, get_default. now rewrite Hnone. }
  split; [apply Hstep|].
  revert c. induction models1 as [|m models1 IH]; intros c; simpl.
  - now rewrite Hstep.
  - destruct (merge_model region m c); [apply IH | reflexivity].
Qed.

(** C9: merging a region's descriptor list a second time changes nothing,
    and every entry the list reports has the region once in its regions. *)
Theorem merge_twice_is_merge_once (region : string) (models : list dict)
    (c : catalog) :
  catalog_inv c ->
  forallb id_usable models = true ->
  exists c1,
    merge_models region models c = (Ok tt, c1)
    /\ merge_models region models c1 = (Ok tt, c1)
    /\ forall model,
         In model models ->
         truthy (get_default model "modelId" VNone) = true ->
         exists entry rs,
           catalog_get c1 (get_default model "modelId" VNone) = Some entry
           /\ dict_get entry "regions" = Some (VList (map VStr rs))
           /\ count_occ string_dec rs region = 1.
Proof.
  intros Hinv Hids.
  destruct (merge_models_lists_region region models c Hinv Hids)
    as (c1 & Hrun & Hinv1 & _ & Hall).
  exists c1. split; [exact Hrun|]. split; [now apply merge_models_noop|].
  intros model Hin Ht. rewrite Forall_forall in Hall.
  apply listed_exactly_once; auto.
Qed.

(** ** The region prober and the run *)

Section Service.

Variable svc : service.

Lemma numbered_cons (t : nat) (region : string) (rest : list string) :
  numbered t (region :: rest) = (t, region) :: numbered (S t) rest.
Proof. reflexivity. Qed.

(** The probe loop keeps the candidates whose probe succeeds, after those
    kept before, and makes one service call for each candidate. *)
Lemma probe_regions_spec (all_regions supported : list string) (st : state) :
  probe_regions svc all_regions supported st
  = (supported
       ++ map snd (filter (probe_succeeds svc) (numbered (clock st) all_regions)),
     Nat.iter (List.length all_regions) tick st).
Proof.
  revert supported st.
  induction all_regions as [|region rest IH]; intros supported st.
  - simpl. now rewrite app_nil_r.
  - rewrite numbered_cons. cbn [probe_regions filter List.length].
    rewrite Nat.iter_succ_r. unfold probe_succeeds at 1. cbn [fst snd].
    destruct (list_foundation_models svc (clock st) region) as [response|e].
    + destruct (modelSummaries response); rewrite IH; simpl;
        [now rewrite <- app_assoc | reflexivity].
    + destruct (is_boto_error e); now rewrite IH.
Qed.

Lemma iter_tick_written (n : nat) (st : state) :
  written (Nat.iter n tick st) = written st.
Proof. induction n; simpl; auto. Qed.

Lemma iter_tick_clock (n : nat) (st : state) :
  clock (Nat.iter n tick st) = n + clock st.
Proof. induction n; simpl; auto. Qed.

Lemma discover_spec (st st1 : state) (res : result (list string)) :
  discover_bedrock_regions svc st = (res, st1) ->
  written st1 = written st
  /\ forall regions, res = Ok regions -> supported_regions st1 = regions.
Proof.
  unfold discover_bedrock_regions.
  destruct (describe_regions svc (clock st)) as [all_regions|e].
  - rewrite probe_regions_spec. intros H. inversion H; subst. simpl.
    rewrite iter_tick_written. split; [reflexivity|].
    intros regions Hr. now inversion Hr.
  - intros H. inversion H; subst. split; [reflexivity | discriminate].
Qed.

(** When the loop over the regions returns, every fetch it made
    returned; in any case it writes no file. *)
Lemma collect_models_spec (regions : list string) (st st' : state)
    (res : result unit) :
  collect_models svc regions st = (res, st') ->
  written st' = written st
  /\ supported_regions st' = supported_regions st
  /\ (res = Ok tt ->
      clock st' = clock st + List.length regions
      /\ forall i region, nth_error regions i = Some region ->
         exists response,
           list_foundation_models svc (clock st + i) region = Ok response).
Proof.
  revert st. induction regions as [|r regions IH]; intros st H.
  - simpl in H. inversion H; subst. repeat split; auto.
    intros i region Hi. destruct i; discriminate.
  - cbn [collect_models] in H. unfold fetch_models_from_region in H.
    destruct (list_foundation_models svc (clock st) r) as [response|e] eqn:Hf.
    2:{ inversion H; subst. repeat split; auto; discriminate. }
    destruct (merge_models r _ (models_by_id (tick st))) as [[[]|e] c].
    2:{ inversion H; subst. repeat split; auto; discriminate. }
    destruct (IH _ H) as (Hw & Hs & Hok). simpl in Hw, Hs.
    split; [exact Hw|]. split; [exact Hs|].
    intros Hres. destruct (Hok Hres) as [Hclock Hall]. simpl in Hclock, Hall.
    split; [simpl; lia|].
    intros [|i] region Hi; simpl in Hi.
    + inversion Hi; subst. rewrite Nat.add_0_r. eauto.
    + destruct (Hall i region Hi) as [resp Hresp]. exists resp.
      now rewrite Nat.add_succ_r.
Qed.

Lemma collect_profiles_spec (regions : list string) (st st' : state)
    (res : result unit) :
  collect_profiles svc regions st = (res, st') ->
  written st' = written st
  /\ (res = Ok tt ->
      forall i region, nth_error regions i = Some region ->
      exists response,
        list_inference_profiles svc (clock st + i) region = Ok response).
Proof.
  revert st. induction regions as [|r regions IH]; intros st H.
  - simpl in H. inversion H; subst. split; auto.
    intros _ i region Hi. destruct i; discriminate.
  - cbn [collect_profiles] in H. unfold fetch_profiles_from_region in H.
    destruct (list_inference_profiles svc (clock st) r) as [response|e] eqn:Hf.
    2:{ inversion H; subst. split; auto; discriminate. }
    destruct (IH _ H) as (Hw & Hok). simpl in Hw.
    split; [exact Hw|].
    intros Hres [|i] region Hi; simpl in Hi.
    + inversion Hi; subst. rewrite Nat.add_0_r. eauto.
    + destruct (Hok Hres i region Hi) as [resp Hresp]. exists resp.
      simpl in Hresp. now rewrite Nat.add_succ_r.
Qed.

(** The catalog [deduplicate_and_collect_models] builds is the merge of
    the lists it fetched, region by region. *)
Lemma collect_models_merges (regions : list string) (st st' : state) :
  collect_models svc regions st = (Ok tt, st') ->
  exists batches,
    map fst batches = regions
    /\ merge_regions batches (models_by_id st) = (Ok tt, models_by_id st').
Proof.
  revert st. induction regions as [|r regions IH]; intros st H.
  - simpl in H. inversion H; subst. now exists [].
  - cbn [collect_models] in H. unfold fetch_models_from_region in H.
    destruct (list_foundation_models svc (clock st) r) as [response|e];
      [|discriminate].
    destruct (merge_models r _ (models_by_id (tick st))) as [[[]|e] c] eqn:Hm;
      [|discriminate].
    destruct (IH _ H) as (batches & Hregions & Hrun). simpl in Hrun, Hm.
    eexists ((r, _) :: batches). simpl. rewrite Hm, Hregions. auto.
Qed.

Lemma collect_models_keeps_inv (regions : list string) (st st' : state)
    (res : result unit) :
  catalog_inv (models_by_id st) ->
  collect_models svc regions st = (res, st') ->
  catalog_inv (models_by_id st').
Proof.
  revert st. induction regions as [|r regions IH]; intros st Hinv H.
  - simpl in H. now inversion H; subst.
  - cbn [collect_models] in H. unfold fetch_models_from_region in H.
    destruct (list_foundation_models svc (clock st) r) as [response|e].
    2:{ now inversion H; subst. }
    destruct (merge_models r _ (models_by_id (tick st))) as [res1 c] eqn:Hm.
    rewrite merge_models_steps in Hm.
    apply merge_steps_keeps_inv in Hm; [|exact Hinv].
    destruct res1 as [[]|e].
    + apply (IH (set_models_by_id c (tick st))); [exact Hm | exact H].
    + now inversion H; subst.
Qed.

(** *** Claims about the prober and the run *)

(** C6: the prober returns the candidates whose one probe call returns a
    response with the listing field, in the order of the candidates; a
    candidate whose probe raises is left out and the candidates after it
    are probed all the same. *)
Theorem probe_keeps_supported_in_order (st : state) (all_regions : list string) :
  describe_regions svc (clock st) = Ok all_regions ->
  discover_bedrock_regions svc st
  = (Ok (map snd (filter (probe_succeeds svc)
                    (numbered (S (clock st)) all_regions))),
     set_supported_regions
       (map snd (filter (probe_succeeds svc)
                   (numbered (S (clock st)) all_regions)))
       (Nat.iter (S (List.length all_regions)) tick st))
  /\ (forall t region e,
        list_foundation_models svc t region = Raise e ->
        probe_succeeds svc (t, region) = false).
Proof.
  intros Hd. split.
  - unfold discover_bedrock_regions. rewrite Hd, probe_regions_spec.
    now rewrite Nat.iter_succ_r.
  - intros t region e He. unfold probe_succeeds. simpl. now rewrite He.
Qed.

(** C7: when fetching the models or the profiles of a supported region
    raises, the run exits with status 1 and has written no file. *)
Theorem fetch_failure_is_fatal (output_dir : string) (st st1 : state)
    (regions : list string) (i : nat) (region : string) (e : exn) :
  discover_bedrock_regions svc st = (Ok regions, st1) ->
  nth_error regions i = Some region ->
  list_foundation_models svc (clock st1 + i) region = Raise e
  \/ list_inference_profiles svc (clock st1 + List.length regions + i) region
     = Raise e ->
  exists st',
    run svc output_dir st = (Exited 1, st') /\ written st' = written st.
Proof.
  intros Hd Hi Hfail. unfold run. rewrite Hd.
  destruct (discover_spec _ _ _ Hd) as [Hw1 Hregs].
  rewrite (Hregs regions eq_refl).
  destruct regions as [|r0 regions0] eqn:Hregions; [destruct i; discriminate|].
  rewrite <- Hregions in *.
  unfold deduplicate_and_collect_models. rewrite (Hregs regions eq_refl).
  destruct (collect_models svc regions st1) as [[[]|e2] st2] eqn:Hm.
  2:{ exists st2. split; [reflexivity|].
      destruct (collect_models_spec _ _ _ _ Hm) as [Hw2 _]. congruence. }
  destruct (collect_models_spec _ _ _ _ Hm) as (Hw2 & Hs2 & Hok2).
  destruct (Hok2 eq_refl) as [Hclock2 Hall2].
  unfold collect_and_flatten_profiles.
  rewrite Hs2, (Hregs regions eq_refl).
  destruct (collect_profiles svc regions st2) as [[[]|e3] st3] eqn:Hp.
  2:{ exists st3. split; [reflexivity|].
      destruct (collect_profiles_spec _ _ _ _ Hp) as [Hw3 _]. congruence. }
  destruct (collect_profiles_spec _ _ _ _ Hp) as (_ & Hok3).
  exfalso. destruct Hfail as [Hfail|Hfail].
  - destruct (Hall2 i region Hi) as [resp Hresp]. congruence.
  - destruct (Hok3 eq_refl i region Hi) as [resp Hresp].
    rewrite Hclock2 in Hresp. congruence.
Qed.

End Service.

(** ** The keys of [models_data] *)

Lemma info_set_keys (md : models_data) (k : value) (info : model_info) :
  map fst (info_set md k info) = map fst md
  \/ (map fst (info_set md k info) = map fst md ++ [k]
      /\ Forall (fun k' => key_eqb k' k = false) (map fst md)).
Proof.
  induction md as [|[k' i'] md IH]; simpl.
  - right. auto.
  - destruct (key_eqb k' k) eqn:E; simpl; [now left|].
    destruct IH as [IH|[IH Hall]]; rewrite IH; [now left|].
    right. split; [reflexivity | now constructor].
Qed.

Lemma load_models_keys (models : list dict) (md md' : models_data) :
  keys_distinct (map fst md) ->
  Forall (fun k => hashable k = true) (map fst md) ->
  load_models models md = Ok md' ->
  keys_distinct (map fst md') /\ Forall (fun k => hashable k = true) (map fst md').
Proof.
  revert md. induction models as [|model models IH]; intros md Hd Hh H.
  - simpl in H. inversion H; subst. auto.
  - cbn [load_models] in H. destruct (item_of model) as [model_id info].
    destruct (truthy model_id); [|now apply (IH md)].
    destruct (hashable model_id) eqn:Hid; [|discriminate].
    apply (IH _) in H; [exact H| |];
      destruct (info_set_keys md model_id info) as [E|[E Hall]]; rewrite E;
      auto.
    + now apply keys_distinct_snoc.
    + apply Forall_app. split; [exact Hh | now repeat constructor].
Qed.

(** The ids [load_models_json] returns are pairwise different. *)
Lemma load_models_json_unique_ids (models : list dict) (md : models_data) :
  load_models_json models = Ok md -> NoDup (map fst md).
Proof.
  intros H. apply load_models_keys in H as [Hd Hh]; simpl; auto.
  now apply keys_distinct_NoDup.
Qed.

(** ** The scenarios *)

Ltac nodup_literal :=
  repeat (constructor; [simpl; intuition discriminate|]); constructor.

Example scenario_B_and_C :
  find_beta_models docs_catalog docs_text
  = Ok ([row_of_item (item_of (descriptor "m2" "Claude 4 Opus" "Anthropic" "ACTIVE"));
         row_of_item (item_of [("modelId", VStr "m6"); ("modelName", VStr "Claude 5")])],
        [row_of_item (item_of (descriptor "m1" "Claude 3 Opus" "Anthropic" "ACTIVE"));
         row_of_item (item_of (descriptor "m3" "MODEL-X" "P" "legacy"));
         row_of_item (item_of (descriptor "m5" "" "P" "ACTIVE"))]).
Proof. reflexivity. Qed.

Example docs_catalog_is_loaded :
  load_models_json
    [descriptor "m1" "Claude 3 Opus" "Anthropic" "ACTIVE";
     descriptor "m2" "Claude 4 Opus" "Anthropic" "ACTIVE";
     descriptor "m3" "MODEL-X" "P" "legacy";
     descriptor "m4" "Claude 3 Opus" "Anthropic" "LEGACY";
     descriptor "m5" "" "P" "ACTIVE";
     [("modelId", VStr "m6"); ("modelName", VStr "Claude 5")];
     [("modelName", VStr "no id")]]
  = Ok docs_catalog.
Proof. reflexivity. Qed.

Example lower_examples :
  lower "Claude 3 OPUS [@Z]" = "claude 3 opus [@z]"
  /\ lower_char (ascii_of_N 192) = ascii_of_N 224
  /\ lower_char (ascii_of_N 215) = ascii_of_N 215
  /\ lower_char (ascii_of_N 222) = ascii_of_N 254
  /\ lower_char (ascii_of_N 223) = ascii_of_N 223.
Proof. repeat split; reflexivity. Qed.

Example scenario_D_run_writes_both_files :
  fst (run scenario_D "data" init) = Returned
  /\ map (fun w => snd (fst w)) (written (snd (run scenario_D "data" init)))
     = ["models.json"; "profiles.json"].
Proof. split; reflexivity. Qed.

Example unhashable_id_raises :
  merge_model "a" [("modelId", VList [VStr "m1"])] [] = Raise TypeError.
Proof. reflexivity. Qed.

Example name_not_a_string_raises :
  find_beta_models [item_of [("modelId", VStr "m1"); ("modelName", VNone)]] docs_text
  = Raise TypeError.
Proof. reflexivity. Qed.

(** C1 as the specification states it fails: the entry m5 is not LEGACY
    and has the empty name, and the classifier puts it in found. *)
Lemma empty_name_counterexample :
  legacy (snd (item_of (descriptor "m5" "" "P" "ACTIVE"))) = false
  /\ name (snd (item_of (descriptor "m5" "" "P" "ACTIVE"))) = VStr ""
  /\ find_beta_models [item_of (descriptor "m5" "" "P" "ACTIVE")] docs_text
     = Ok ([], [row_of_item (item_of (descriptor "m5" "" "P" "ACTIVE"))])
  /\ ~ (exists beta found,
          find_beta_models [item_of (descriptor "m5" "" "P" "ACTIVE")] docs_text
          = Ok (beta, found)
          /\ In (row_of_item (item_of (descriptor "m5" "" "P" "ACTIVE"))) beta
          /\ ~ In (row_of_item (item_of (descriptor "m5" "" "P" "ACTIVE"))) found).
Proof.
  split; [reflexivity|]. split; [reflexivity|]. split; [reflexivity|].
  intros (beta & found & Hrun & Hbeta & _).
  vm_compute in Hrun. inversion Hrun; subst. contradiction.
Qed.

Lemma empty_name_is_found_witness :
  exists beta found,
    find_beta_models docs_catalog docs_text = Ok (beta, found)
    /\ In (row_of_item (item_of (descriptor "m5" "" "P" "ACTIVE"))) found
    /\ ~ In (row_of_item (item_of (descriptor "m5" "" "P" "ACTIVE"))) beta.
Proof.
  apply (empty_name_is_found docs_catalog docs_text (VStr "m5")
           (snd (item_of (descriptor "m5" "" "P" "ACTIVE")))).
  - nodup_literal.
  - reflexivity.
  - simpl. tauto.
  - reflexivity.
  - reflexivity.
Defined.


Lemma legacy_in_neither_partition_witness :
  ~ In (row_of_item (item_of (descriptor "m4" "Claude 3 Opus" "Anthropic" "LEGACY")))
      (map row_of_item (filter (goes_found docs_text) docs_catalog))
  /\ ~ In (row_of_item (item_of (descriptor "m4" "Claude 3 Opus" "Anthropic" "LEGACY")))
       (map row_of_item (filter (goes_beta docs_text) docs_catalog)).
Proof.
  apply (legacy_in_neither_partition docs_catalog docs_text _ _ (VStr "m4")
           (snd (item_of (descriptor "m4" "Claude 3 Opus" "Anthropic" "LEGACY")))).
  - reflexivity.
  - nodup_literal.
  - simpl. tauto.
  - reflexivity.
Defined.

Lemma only_LEGACY_is_skipped_witness :
  exists beta found,
    find_beta_models docs_catalog docs_text = Ok (beta, found)
    /\ (forall x, In x beta -> ~ In x found).
Proof.
  destruct (only_LEGACY_is_skipped docs_catalog docs_text)
    as (beta & found & Hrun & Hdisjoint & _).
  - nodup_literal.
  - reflexivity.
  - exists beta, found. split; [exact Hrun | exact Hdisjoint].
Defined.

Lemma merge_keeps_one_entry_per_model_witness :
  exists c1,
    merge_steps [("a", descriptor "m1" "Foo" "P" "ACTIVE")] [] = (Ok tt, c1)
    /\ catalog_inv c1
    /\ catalog_grows c1
         [(VStr "m1",
           dict_set (descriptor "m1" "Foo" "P" "ACTIVE") "regions"
             (VList [VStr "a"; VStr "b"]))].
Proof.
  destruct (merge_keeps_one_entry_per_model scenario_A
              [("a", descriptor "m1" "Foo" "P" "ACTIVE")]
              [("b", descriptor "m1" "FOO" "P" "ACTIVE")]
              (Ok tt)
              [(VStr "m1",
                dict_set (descriptor "m1" "Foo" "P" "ACTIVE") "regions"
                  (VList [VStr "a"; VStr "b"]))])
    as (_ & _ & Hok).
  - reflexivity.
  - reflexivity.
  - destruct (Hok eq_refl) as (c1 & Hrun & Hinv & _ & _ & _ & _ & Hgrows).
    exists c1. split; [exact Hrun|]. split; [exact Hinv | exact Hgrows].
Defined.

Lemma first_seen_payload_wins_witness :
  exists c' entry',
    merge_model "b" (descriptor "m1" "FOO" "P" "ACTIVE")
      [(VStr "m1",
        dict_set (descriptor "m1" "Foo" "P" "ACTIVE") "regions" (VList [VStr "a"]))]
    = Ok c'
    /\ catalog_get c' (VStr "m1") = Some entry'
    /\ dict_get entry' "modelName" = Some (VStr "Foo").
Proof.
  destruct (proj1 first_seen_payload_wins "b"
              (descriptor "m1" "FOO" "P" "ACTIVE")
              [(VStr "m1",
                dict_set (descriptor "m1" "Foo" "P" "ACTIVE") "regions"
                  (VList [VStr "a"]))]
              (dict_set (descriptor "m1" "Foo" "P" "ACTIVE") "regions"
                 (VList [VStr "a"])))
    as (c' & entry' & Hstep & _ & Hget & _ & Hfields & _).
  - split; [simpl; auto|]. constructor; [|constructor].
    split; [reflexivity|]. split; [reflexivity|]. split; [reflexivity|].
    exists ["a"]. split; [reflexivity | nodup_literal].
  - reflexivity.
  - reflexivity.
  - exists c', entry'. split; [exact Hstep|]. split; [exact Hget|].
    rewrite Hfields; [reflexivity | discriminate].
Defined.

Lemma descriptor_without_id_is_dropped_witness :
  merge_model "a" [("modelName", VStr "Foo")] [] = Ok []
  /\ merge_models "a"
       ([descriptor "m1" "Foo" "P" "ACTIVE"]
          ++ [("modelName", VStr "Foo")] :: [descriptor "m2" "Bar" "P" "ACTIVE"])
       []
     = merge_models "a"
         ([descriptor "m1" "Foo" "P" "ACTIVE"]
            ++ [descriptor "m2" "Bar" "P" "ACTIVE"])
         [].
Proof.
  apply (descriptor_without_id_is_dropped "a" [("modelName", VStr "Foo")]).
  reflexivity.
Defined.

Lemma merge_twice_is_merge_once_witness :
  exists c1,
    merge_models "a"
      [descriptor "m1" "Foo" "P" "ACTIVE"; descriptor "m1" "FOO" "P" "ACTIVE";
       descriptor "m2" "Bar" "P" "ACTIVE"] [] = (Ok tt, c1)
    /\ merge_models "a"
         [descriptor "m1" "Foo" "P" "ACTIVE"; descriptor "m1" "FOO" "P" "ACTIVE";
          descriptor "m2" "Bar" "P" "ACTIVE"] c1 = (Ok tt, c1).
Proof.
  destruct (merge_twice_is_merge_once "a"
              [descriptor "m1" "Foo" "P" "ACTIVE";
               descriptor "m1" "FOO" "P" "ACTIVE";
               descriptor "m2" "Bar" "P" "ACTIVE"] [])
    as (c1 & Hfirst & Hsecond & _).
  - apply catalog_inv_nil.
  - reflexivity.
  - exists c1. split; [exact Hfirst | exact Hsecond].
Defined.

(** Scenario D: the probe of r2 raises; r1 and r3 are the supported
    regions. *)
Lemma probe_keeps_supported_in_order_witness :
  fst (discover_bedrock_regions scenario_D init) = Ok ["r1"; "r3"].
Proof.
  rewrite (proj1 (probe_keeps_supported_in_order scenario_D init
                    ["r1"; "r2"; "r3"] eq_refl)).
  reflexivity.
Defined.

(** Scenario E: r1 is supported and the fetch of its models raises. *)
Lemma fetch_failure_is_fatal_witness :
  exists st',
    run scenario_E "data" init = (Exited 1, st') /\ written st' = written init.
Proof.
  apply (fetch_failure_is_fatal scenario_E "data" init
           (snd (discover_bedrock_regions scenario_E init))
           ["r1"] 0 "r1" ClientError).
  - reflexivity.
  - reflexivity.
  - left. reflexivity.
Defined.

(** ** More about the catalog merger *)

Lemma existsb_key_filter_other (k a : value) (l : list value) :
  existsb (fun k' => key_eqb k' k) (filter (fun k' => negb (key_eqb k' a)) l)
  = existsb (fun k' => key_eqb k' k) l && negb (key_eqb k a).
Proof.
  induction l as [|x l IH]; simpl; [reflexivity|].
  destruct (key_eqb x a) eqn:Exa; simpl; rewrite IH.
  - destruct (key_eqb x k) eqn:Exk; simpl; [|reflexivity].
    rewrite key_eqb_sym in Exk.
    rewrite <- (key_eqb_trans k x a Exk), Exa. simpl.
    now rewrite andb_false_r.
  - destruct (key_eqb x k) eqn:Exk; simpl; [|reflexivity].
    rewrite key_eqb_sym in Exk.
    now rewrite <- (key_eqb_trans k x a Exk), Exa.
Qed.

Lemma first_keys_snoc (l : list value) (k : value) :
  first_keys (l ++ [k])
  = if existsb (fun k' => key_eqb k' k) (first_keys l)
    then first_keys l
    else first_keys l ++ [k].
Proof.
  induction l as [|a l IH]; simpl; [reflexivity|].
  rewrite IH, existsb_key_filter_other.
  destruct (existsb (fun k' => key_eqb k' k) (first_keys l)); simpl.
  - rewrite (key_eqb_sym a k). now destruct (key_eqb k a).
  - rewrite orb_false_r, filter_app. simpl.
    rewrite (key_eqb_sym a k).
    destruct (key_eqb k a); simpl; [now rewrite app_nil_r | reflexivity].
Qed.

Lemma existsb_keys_catalog_get (c : catalog) (k : value) :
  existsb (fun k' => key_eqb k' k) (map fst c)
  = match catalog_get c k with Some _ => true | None => false end.
Proof.
  induction c as [|[k' e] c IH]; simpl; [reflexivity|].
  destruct (key_eqb k' k); simpl; [reflexivity | exact IH].
Qed.

Lemma reported_ids_snoc (steps : list (string * dict)) (step : string * dict) :
  reported_ids (steps ++ [step])
  = reported_ids steps ++ (if truthy (step_id step) then [step_id step] else []).
Proof.
  unfold reported_ids. rewrite map_app, filter_app. simpl.
  now destruct (truthy (step_id step)).
Qed.

(** The keys of the catalog are the ids reported, in the order of their
    first report. *)
Lemma merged_keys (steps : list (string * dict)) (region : string)
    (model : dict) (c c' : catalog) :
  merged region model c c' ->
  map fst c = first_keys (reported_ids steps) ->
  map fst c' = first_keys (reported_ids (steps ++ [(region, model)])).
Proof.
  intros H Hkeys. rewrite reported_ids_snoc. unfold step_id. simpl.
  destruct H as [Ht | c1 k e c2 v Ht Hc Hk Hnone Hr Hp
                 | c1 k e c2 l Ht Hc Hk Hnone Hr Hp | Ht Hh Hnone];
    rewrite Ht.
  - now rewrite app_nil_r.
  - rewrite first_keys_snoc, <- Hkeys, existsb_keys_catalog_get.
    subst c. now rewrite found_entry_lookup.
  - rewrite first_keys_snoc, <- Hkeys, existsb_keys_catalog_get.
    subst c. rewrite found_entry_lookup by assumption.
    now rewrite !map_app.
  - rewrite first_keys_snoc, <- Hkeys, existsb_keys_catalog_get, Hnone.
    now rewrite map_app.
Qed.

Lemma find_snoc (A : Type) (p : A -> bool) (l : list A) (x : A) :
  find p (l ++ [x])
  = match find p l with
    | Some y => Some y
    | None => if p x then Some x else None
    end.
Proof.
  induction l as [|a l IH]; simpl; [reflexivity|].
  now destruct (p a).
Qed.

Lemma keeps_first_payload_snoc (steps : list (string * dict))
    (step : string * dict) (x : value * dict) :
  keeps_first_payload steps x -> keeps_first_payload (steps ++ [step]) x.
Proof.
  intros (s0 & Hfind & Hx). exists s0. now rewrite find_snoc, Hfind.
Qed.

Lemma sightings_nil_find (k : value) (steps : list (string * dict)) :
  sightings k steps = [] -> find (sighted k) steps = None.
Proof.
  unfold sightings. induction steps as [|s steps IH]; simpl; [reflexivity|].
  destruct (sighted k s); simpl; [discriminate | exact IH].
Qed.

Lemma merged_keeps_first_payload (steps : list (string * dict))
    (region : string) (model : dict) (c c' : catalog) :
  merged region model c c' ->
  reflects steps c ->
  Forall (keeps_first_payload steps) c ->
  Forall (keeps_first_payload (steps ++ [(region, model)])) c'.
Proof.
  intros H (_ & Hun & _) Hall.
  assert (Hold : Forall (keeps_first_payload (steps ++ [(region, model)])) c).
  { eapply Forall_impl; [|exact Hall].
    intros x. apply keeps_first_payload_snoc. }
  destruct H as [Ht | c1 k e c2 v Ht Hc Hk Hnone Hr Hp
                 | c1 k e c2 l Ht Hc Hk Hnone Hr Hp | Ht Hh Hnone].
  - exact Hold.
  - exact Hold.
  - subst c. apply Forall_app in Hold as [H1 H2].
    inversion H2 as [|? ? Hx H2']; subst.
    apply Forall_app. split; [exact H1|]. constructor; [|exact H2'].
    destruct Hx as (s0 & Hfind & Hx). simpl in *. exists s0.
    split; [exact Hfind|]. simpl.
    rewrite regions_of_set. rewrite Hx at 1. now rewrite dict_set_set.
  - apply Forall_app. split; [exact Hold|]. constructor; [|constructor].
    exists (region, model). simpl. split.
    + rewrite find_snoc, (sightings_nil_find _ _ (Hun _ Hnone)).
      unfold sighted. simpl. now rewrite Ht, (key_eqb_refl _ Hh).
    + now rewrite regions_of_set.
Qed.

Lemma merge_steps_characterised (s2 s1 : list (string * dict)) (c c' : catalog) :
  reflects s1 c ->
  map fst c = first_keys (reported_ids s1) ->
  Forall (keeps_first_payload s1) c ->
  merge_steps s2 c = (Ok tt, c') ->
  reflects (s1 ++ s2) c'
  /\ map fst c' = first_keys (reported_ids (s1 ++ s2))
  /\ Forall (keeps_first_payload (s1 ++ s2)) c'.
Proof.
  revert s1 c. induction s2 as [|[region model] s2 IH];
    intros s1 c Hrefl Hkeys Hpay H.
  - simpl in H. inversion H; subst. now rewrite app_nil_r.
  - simpl in H.
    destruct (merge_model region model c) as [c1|e] eqn:Hstep; [|discriminate].
    apply merge_model_merged in Hstep.
    replace (s1 ++ (region, model) :: s2)
      with ((s1 ++ [(region, model)]) ++ s2) by now rewrite <- app_assoc.
    apply (IH _ c1); auto.
    + now apply (merged_reflects s1 region model c).
    + now apply (merged_keys s1 region model c).
    + now apply (merged_keeps_first_payload s1 region model c).
Qed.

(** The catalog of a completed merge, as a function of the steps. *)
Lemma merge_builds_catalog_of_steps_aux (batches : list (string * list dict))
    (c : catalog) :
  merge_regions batches [] = (Ok tt, c) ->
  c = catalog_of (flatten batches).
Proof.
  intros Hrun. rewrite merge_regions_steps in Hrun.
  destruct (merge_steps_characterised (flatten batches) [] [] c)
    as ((_ & _ & Hfs) & Hkeys & Hpay); auto using reflects_nil.
  simpl in *. unfold catalog_of. rewrite <- Hkeys. clear Hkeys Hrun.
  induction c as [|[k e] c IH]; simpl; [reflexivity|].
  inversion Hfs as [|? ? Hx Hfs']; inversion Hpay as [|? ? Hy Hpay']; subst.
  rewrite <- (IH Hfs' Hpay'). f_equal. f_equal.
  destruct Hy as (s0 & Hfind & He). simpl in *.
  unfold entry_of. rewrite Hfind.
  unfold lists_first_sightings in Hx. simpl in Hx. now rewrite <- Hx.
Qed.

(** X1: the catalog a completed merge builds is a function of the steps:
    one entry for each id reported, in the order of first report, made of
    the first descriptor reported under the id and of the regions that
    reported it, in the order of their first report. *)
Theorem merge_builds_catalog_of_steps (batches : list (string * list dict))
    (c : catalog) :
  merge_regions batches [] = (Ok tt, c) ->
  c = catalog_of (flatten batches).
Proof. apply merge_builds_catalog_of_steps_aux. Qed.

Lemma first_sightings_In (l : list string) (r : string) :
  In r (first_sightings l) <-> In r l.
Proof.
  induction l as [|a l IH]; simpl; [reflexivity|].
  rewrite filter_In, IH, negb_true_iff, String.eqb_neq.
  destruct (string_dec a r) as [->|Hne]; [tauto|].
  split; [tauto|]. intros [H|H]; [contradiction|]. right. split; congruence.
Qed.

Lemma sightings_In (k : value) (steps : list (string * dict)) (r : string) :
  In r (sightings k steps)
  <-> exists model, In (r, model) steps /\ sighted k (r, model) = true.
Proof.
  unfold sightings. rewrite in_map_iff. split.
  - intros [[r' model] [Hr Hin]]. simpl in Hr. subst r'.
    apply filter_In in Hin. now exists model.
  - intros [model [Hin Hs]]. exists (r, model). split; [reflexivity|].
    now apply filter_In.
Qed.

Lemma In_map_VStr (l : list string) (r : string) :
  In (VStr r) (map VStr l) <-> In r l.
Proof.
  rewrite in_map_iff. split.
  - intros [x [Hx Hin]]. now inversion Hx; subst.
  - intros Hin. now exists r.
Qed.

(** X2: after a completed merge an entry lists a region exactly when a
    descriptor fetched from that region reported the entry's id. *)
Theorem entry_lists_reporting_regions (batches : list (string * list dict))
    (c : catalog) (k : value) (e : dict) (r : string) :
  merge_regions batches [] = (Ok tt, c) ->
  In (k, e) c ->
  In (VStr r) (regions_of e)
  <-> exists model,
        In (r, model) (flatten batches)
        /\ truthy (get_default model "modelId" VNone) = true
        /\ key_eqb (get_default model "modelId" VNone) k = true.
Proof.
  intros Hrun Hin. rewrite merge_regions_steps in Hrun.
  destruct (merge_steps_reflects (flatten batches) [] [] c reflects_nil Hrun)
    as [(_ & _ & Hfs) _]. simpl in Hfs.
  rewrite Forall_forall in Hfs. specialize (Hfs _ Hin).
  unfold lists_first_sightings in Hfs. simpl in Hfs.
  rewrite Hfs, In_map_VStr, first_sightings_In, sightings_In.
  unfold sighted. simpl.
  split; intros [model [H1 H2]]; exists model; (split; [exact H1|]).
  - now apply andb_true_iff in H2.
  - now apply andb_true_iff.
Qed.

(** *** Exceptions of the merge *)

Lemma merge_model_raises (region : string) (model : dict) (c : catalog)
    (e : exn) :
  catalog_inv c ->
  merge_model region model c = Raise e ->
  e = TypeError
  /\ truthy (get_default model "modelId" VNone) = true
  /\ hashable (get_default model "modelId" VNone) = false.
Proof.
  intros Hinv H. destruct (id_usable model) eqn:Hid.
  - destruct (merge_model_total region model c Hinv Hid) as [c' Hc'].
    congruence.
  - unfold id_usable in Hid. apply orb_false_iff in Hid as [Ht Hh].
    apply negb_false_iff in Ht. unfold merge_model in H.
    rewrite Ht, Hh in H. simpl in H. inversion H. auto.
Qed.

Lemma merge_model_usable (region : string) (model : dict) (c c' : catalog) :
  merge_model region model c = Ok c' -> id_usable model = true.
Proof.
  unfold merge_model, id_usable.
  destruct (truthy (get_default model "modelId" VNone)); simpl; [|reflexivity].
  destruct (hashable (get_default model "modelId" VNone)); simpl;
    [reflexivity | discriminate].
Qed.

Lemma merge_steps_outcome (steps : list (string * dict)) (c c' : catalog)
    (res : result unit) :
  catalog_inv c ->
  merge_steps steps c = (res, c') ->
  match res with
  | Ok _ => forallb (fun step => id_usable (snd step)) steps = true
  | Raise e =>
      e = TypeError
      /\ exists s1 step s2,
           steps = s1 ++ step :: s2
           /\ merge_steps s1 c = (Ok tt, c')
           /\ truthy (step_id step) = true
           /\ hashable (step_id step) = false
  end.
Proof.
  revert c. induction steps as [|[region model] steps IH]; intros c Hinv H.
  - simpl in H. inversion H; subst. reflexivity.
  - simpl in H.
    destruct (merge_model region model c) as [c1|e] eqn:Hstep.
    + pose proof (merge_model_usable _ _ _ _ Hstep) as Hid.
      pose proof (merged_keeps_inv _ _ _ _ (merge_model_merged _ _ _ _ Hstep) Hinv)
        as Hinv1.
      specialize (IH c1 Hinv1 H). destruct res as [u|e].
      * simpl. now rewrite Hid.
      * destruct IH as (He & s1 & step & s2 & -> & Hrun & Ht & Hh).
        split; [exact He|]. exists ((region, model) :: s1), step, s2.
        simpl. rewrite Hstep. auto.
    + inversion H; subst.
      destruct (merge_model_raises _ _ _ _ Hinv Hstep) as (He & Ht & Hh).
      split; [exact He|]. exists [], (region, model), steps. auto.
Qed.

(** X3: the merge raises nothing but [TypeError], and that for the first
    descriptor whose id is truthy and cannot be a dictionary key; the
    catalog it leaves is the merge of the descriptors before that one.  A
    merge that returns had no such descriptor. *)
Theorem merge_raises_only_for_unhashable_id
    (batches : list (string * list dict)) (res : result unit) (c : catalog) :
  merge_regions batches [] = (res, c) ->
  match res with
  | Ok _ => forallb (fun step => id_usable (snd step)) (flatten batches) = true
  | Raise e =>
      e = TypeError
      /\ exists s1 step s2,
           flatten batches = s1 ++ step :: s2
           /\ merge_steps s1 [] = (Ok tt, c)
           /\ truthy (step_id step) = true
           /\ hashable (step_id step) = false
  end.
Proof.
  intros H. rewrite merge_regions_steps in H.
  exact (merge_steps_outcome _ _ _ _ catalog_inv_nil H).
Qed.

(** ** More about the run *)

Section Run.

Variable svc : service.

Lemma discover_returns (st : state) (all_regions : list string) :
  describe_regions svc (clock st) = Ok all_regions ->
  discover_bedrock_regions svc st
  = (Ok (supported_among svc st all_regions),
     set_supported_regions (supported_among svc st all_regions)
       (Nat.iter (S (List.length all_regions)) tick st)).
Proof.
  intros Hd. unfold discover_bedrock_regions, supported_among.
  rewrite Hd, probe_regions_spec. now rewrite Nat.iter_succ_r.
Qed.

Lemma iter_tick_data (n : nat) (st : state) :
  models_by_id (Nat.iter n tick st) = models_by_id st
  /\ profiles_list (Nat.iter n tick st) = profiles_list st
  /\ supported_regions (Nat.iter n tick st) = supported_regions st.
Proof. induction n; simpl; auto. Qed.

Lemma collect_models_fetched (regions : list string) (st st' : state) :
  collect_models svc regions st = (Ok tt, st') ->
  merge_regions (model_batches svc (clock st) regions) (models_by_id st)
  = (Ok tt, models_by_id st')
  /\ profiles_list st' = profiles_list st.
Proof.
  revert st. induction regions as [|r regions IH]; intros st H.
  - simpl in H. inversion H; subst. auto.
  - cbn [collect_models] in H. unfold fetch_models_from_region in H.
    cbn [model_batches merge_regions].
    destruct (list_foundation_models svc (clock st) r) as [response|e];
      [|discriminate].
    destruct (merge_models r _ (models_by_id (tick st))) as [[[]|e] c] eqn:Hm;
      [|discriminate].
    simpl in Hm. rewrite Hm.
    destruct (IH _ H) as [Hrun Hp]. simpl in Hrun, Hp. auto.
Qed.

Lemma collect_profiles_fetched (regions : list string) (st st' : state)
    (res : result unit) :
  collect_profiles svc regions st = (res, st') ->
  models_by_id st' = models_by_id st
  /\ supported_regions st' = supported_regions st
  /\ (res = Ok tt ->
      clock st' = clock st + List.length regions
      /\ profiles_list st'
         = profiles_list st
             ++ flatten_profiles (profile_batches svc (clock st) regions)).
Proof.
  revert st. induction regions as [|r regions IH]; intros st H.
  - simpl in H. inversion H; subst. repeat split; auto.
    unfold flatten_profiles. simpl. now rewrite app_nil_r.
  - cbn [collect_profiles] in H. unfold fetch_profiles_from_region in H.
    cbn [profile_batches].
    destruct (list_inference_profiles svc (clock st) r) as [response|e].
    2:{ inversion H; subst. repeat split; auto; discriminate. }
    destruct (IH _ H) as (Hm & Hs & Hok). simpl in Hm, Hs.
    split; [exact Hm|]. split; [exact Hs|].
    intros Hres. destruct (Hok Hres) as [Hclock Hp]. simpl in Hclock, Hp.
    split; [simpl; lia|]. rewrite Hp. unfold flatten_profiles. simpl.
    now rewrite <- app_assoc.
Qed.

Lemma dict_get_annotate (region : string) (profile : dict) :
  dict_get (annotate region profile) "region" = Some (VStr region)
  /\ forall field, field <> "region" ->
       dict_get (annotate region profile) field = dict_get profile field.
Proof.
  unfold annotate. split.
  - apply dict_get_set_same.
  - intros field Hf. now apply dict_get_set_other.
Qed.

Lemma length_flatten_profiles (batches : list (string * list dict)) :
  List.length (flatten_profiles batches)
  = list_sum (map (fun batch => List.length (snd batch)) batches).
Proof.
  unfold flatten_profiles. induction batches as [|b l IH]; simpl; [reflexivity|].
  now rewrite length_app, length_map, IH.
Qed.

(** X4: the loop over the regions appends to the profile list, in the
    order of the regions and then of each listing, every profile fetched,
    with nothing merged or left out; each carries its region under
    ["region"] and its other fields as fetched. *)
Theorem profiles_are_flattened_with_region (st st' : state) :
  collect_and_flatten_profiles svc st = (Ok tt, st') ->
  profiles_list st'
  = profiles_list st
      ++ flatten_profiles (profile_batches svc (clock st) (supported_regions st))
  /\ List.length (profiles_list st')
     = List.length (profiles_list st)
       + list_sum (map (fun batch => List.length (snd batch))
                     (profile_batches svc (clock st) (supported_regions st)))
  /\ (forall region profile,
        In (region, profile)
          (flatten (profile_batches svc (clock st) (supported_regions st))) ->
        In (annotate region profile) (profiles_list st')
        /\ dict_get (annotate region profile) "region" = Some (VStr region)
        /\ forall field, field <> "region" ->
             dict_get (annotate region profile) field = dict_get profile field).
Proof.
  unfold collect_and_flatten_profiles. intros H.
  destruct (collect_profiles_fetched _ _ _ _ H) as (_ & _ & Hok).
  destruct (Hok eq_refl) as [_ Hp]. split; [exact Hp|]. split.
  - now rewrite Hp, length_app, length_flatten_profiles.
  - intros region profile Hin. split; [|apply dict_get_annotate].
    rewrite Hp. apply in_or_app. right. unfold flatten_profiles.
    unfold flatten in Hin. apply in_flat_map in Hin as [b [Hb Hin]].
    apply in_map_iff in Hin as [p [Hp' Hin]]. inversion Hp'; subst.
    apply in_flat_map. exists b. split; [exact Hb|]. now apply in_map.
Qed.

(** X5: the run ends in one of two ways: it returns, having written
    [models.json] and then [profiles.json] from the catalog and the
    profile list it holds; or it exits with status 1, having written
    nothing. *)
Theorem run_writes_both_files_or_none (output_dir : string) (st : state) :
  (fst (run svc output_dir st) = Returned
   /\ written (snd (run svc output_dir st))
      = written st
          ++ [(output_dir, "models.json",
               map snd (models_by_id (snd (run svc output_dir st))));
              (output_dir, "profiles.json",
               profiles_list (snd (run svc output_dir st)))])
  \/ (fst (run svc output_dir st) = Exited 1
      /\ written (snd (run svc output_dir st)) = written st).
Proof.
  unfold run.
  destruct (discover_bedrock_regions svc st) as [[regions|e] st1] eqn:Hd;
    destruct (discover_spec _ _ _ _ Hd) as [Hw1 _]; [|now right].
  destruct (supported_regions st1) as [|r0 rest] eqn:Hregs; [now right|].
  unfold deduplicate_and_collect_models.
  destruct (collect_models svc (supported_regions st1) st1)
    as [[[]|e] st2] eqn:Hm;
    destruct (collect_models_spec _ _ _ _ _ Hm) as (Hw2 & _ & _).
  2:{ right. simpl. split; [reflexivity | congruence]. }
  unfold collect_and_flatten_profiles.
  destruct (collect_profiles svc (supported_regions st2) st2)
    as [[[]|e] st3] eqn:Hp;
    destruct (collect_profiles_spec _ _ _ _ _ Hp) as (Hw3 & _).
  2:{ right. simpl. split; [reflexivity | congruence]. }
  left. simpl. split; [reflexivity|]. rewrite <- app_assoc. simpl. congruence.
Qed.


(** X7: when no candidate's probe succeeds the run exits with status 1
    after the probes: it fetches nothing, leaves the catalog and the
    profile list as they were and writes nothing. *)
Theorem run_without_supported_region (output_dir : string) (st : state)
    (all_regions : list string) :
  describe_regions svc (clock st) = Ok all_regions ->
  supported_among svc st all_regions = [] ->
  run svc output_dir st
  = (Exited 1,
     set_supported_regions []
       (Nat.iter (S (List.length all_regions)) tick st))
  /\ clock (snd (run svc output_dir st))
     = clock st + 1 + List.length all_regions
  /\ models_by_id (snd (run svc output_dir st)) = models_by_id st
  /\ profiles_list (snd (run svc output_dir st)) = profiles_list st
  /\ written (snd (run svc output_dir st)) = written st.
Proof.
  intros Hd Hnone. unfold run.
  rewrite (discover_returns st all_regions Hd), Hnone. simpl.
  destruct (iter_tick_data (List.length all_regions) st) as (Hm & Hp & _).
  rewrite iter_tick_clock, iter_tick_written.
  repeat split; auto. lia.
Qed.

(** X8: a run of a fresh collector that returns has written, as
    [models.json], the entries of the catalog of the model listings of the
    supported regions, and, as [profiles.json], the profiles of their
    profile listings, each with its region. *)
Theorem run_writes_the_catalog_of_the_listings (output_dir : string)
    (st : state) (all_regions : list string) :
  describe_regions svc (clock st) = Ok all_regions ->
  models_by_id st = [] ->
  profiles_list st = [] ->
  fst (run svc output_dir st) = Returned ->
  written (snd (run svc output_dir st))
  = written st
      ++ [(output_dir, "models.json",
           map snd
             (catalog_of
                (flatten
                   (model_batches svc
                      (clock st + 1 + List.length all_regions)
                      (supported_among svc st all_regions)))));
          (output_dir, "profiles.json",
           flatten_profiles
             (profile_batches svc
                (clock st + 1 + List.length all_regions
                 + List.length (supported_among svc st all_regions))
                (supported_among svc st all_regions)))].
Proof.
  intros Hd Hm0 Hp0. unfold run. rewrite (discover_returns st all_regions Hd).
  remember (supported_among svc st all_regions) as regions eqn:Hregions.
  remember (set_supported_regions regions
              (Nat.iter (S (List.length all_regions)) tick st)) as st1 eqn:Hst1.
  destruct (iter_tick_data (List.length all_regions) st) as (Hmi & Hpi & _).
  assert (Hs1 : supported_regions st1 = regions) by now subst st1.
  assert (Hc1 : clock st1 = clock st + 1 + List.length all_regions).
  { subst st1. simpl. rewrite iter_tick_clock. lia. }
  assert (Hm1 : models_by_id st1 = []).
  { subst st1. simpl in *. congruence. }
  assert (Hp1 : profiles_list st1 = []).
  { subst st1. simpl in *. congruence. }
  assert (Hw1 : written st1 = written st).
  { subst st1. simpl. now rewrite iter_tick_written. }
  clear Hst1 Hregions Hmi Hpi. rewrite Hs1.
  destruct regions as [|r0 rest]; [discriminate|].
  unfold deduplicate_and_collect_models. rewrite Hs1.
  destruct (collect_models svc (r0 :: rest) st1) as [[[]|e] st2] eqn:Hm;
    [|discriminate].
  destruct (collect_models_spec _ _ _ _ _ Hm) as (Hw2 & Hs2 & Hok2).
  destruct (Hok2 eq_refl) as [Hc2 _].
  destruct (collect_models_fetched _ _ _ Hm) as [Hmerge Hp2].
  rewrite Hm1, Hc1 in Hmerge.
  unfold collect_and_flatten_profiles. rewrite Hs2, Hs1.
  destruct (collect_profiles svc (r0 :: rest) st2) as [[[]|e] st3] eqn:Hp;
    [|discriminate].
  destruct (collect_profiles_spec _ _ _ _ _ Hp) as (Hw3 & _).
  destruct (collect_profiles_fetched _ _ _ _ Hp) as (Hm3 & _ & Hok3).
  destruct (Hok3 eq_refl) as [_ Hp3].
  intros _.
  cbn [fst snd save_data write_file written models_by_id profiles_list].
  rewrite <- app_assoc.
  rewrite Hw3, Hw2, Hw1, Hm3, Hp3, Hp2, Hp1, Hc2, Hc1.
  now rewrite <- (merge_builds_catalog_of_steps_aux _ _ Hmerge).
Qed.

End Run.

(** ** More about [load_models_json] *)

Lemma info_get_set_same (md : models_data) (k : value) (info : model_info) :
  hashable k = true -> info_get (info_set md k info) k = Some info.
Proof.
  intros Hk. induction md as [|[k' i'] md IH]; simpl.
  - now rewrite key_eqb_refl.
  - destruct (key_eqb k' k) eqn:E; simpl; now rewrite E.
Qed.

Lemma info_get_set_other (md : models_data) (k k2 : value) (info : model_info) :
  key_eqb k k2 = false ->
  info_get (info_set md k info) k2 = info_get md k2.
Proof.
  intros Hne. induction md as [|[k' i'] md IH]; simpl.
  - now rewrite Hne.
  - destruct (key_eqb k' k) eqn:E; simpl.
    + rewrite (key_eqb_trans k' k k2 E) in Hne. now rewrite Hne.
    + now rewrite IH.
Qed.

Lemma info_set_In (md : models_data) (k : value) (info : model_info)
    (x : value * model_info) :
  hashable k = true ->
  In x (info_set md k info) ->
  In x md \/ (key_eqb (fst x) k = true /\ snd x = info).
Proof.
  intros Hk. induction md as [|[k' i'] md IH]; simpl.
  - intros [<-|[]]. right. simpl. now rewrite key_eqb_refl.
  - destruct (key_eqb k' k) eqn:E; simpl.
    + intros [<-|H]; [right; auto | left; auto].
    + intros [<-|H]; [left; auto|]. destruct (IH H); auto.
Qed.

Lemma load_models_app (l1 l2 : list dict) (md : models_data) :
  load_models (l1 ++ l2) md
  = (md' <- load_models l1 md ;; load_models l2 md').
Proof.
  revert md. induction l1 as [|model l1 IH]; intros md; [reflexivity|].
  cbn [app load_models]. destruct (item_of model) as [model_id info].
  destruct (truthy model_id); [|apply IH].
  destruct (hashable model_id); [apply IH | reflexivity].
Qed.

Lemma load_models_from (models : list dict) (md md' : models_data) :
  load_models models md = Ok md' ->
  forall x, In x md' ->
    In x md
    \/ exists model,
         In model models
         /\ truthy (fst (item_of model)) = true
         /\ key_eqb (fst x) (fst (item_of model)) = true
         /\ snd x = snd (item_of model).
Proof.
  revert md. induction models as [|model models IH]; intros md H x Hx.
  - simpl in H. inversion H; subst. now left.
  - cbn [load_models] in H.
    destruct (item_of model) as [model_id info] eqn:Hitem.
    destruct (truthy model_id) eqn:Ht.
    + destruct (hashable model_id) eqn:Hh; [|discriminate].
      destruct (IH _ H x Hx) as [Hin|(m & Hm & Hrest)].
      * destruct (info_set_In _ _ _ _ Hh Hin) as [Hold|[Hk Hs]];
          [now left|].
        right. exists model. rewrite Hitem. simpl. auto.
      * right. exists m. simpl. auto.
    + destruct (IH _ H x Hx) as [Hin|(m & Hm & Hrest)]; [now left|].
      right. exists m. simpl. auto.
Qed.

Lemma load_models_keeps (models : list dict) (md md' : models_data)
    (k : value) (info : model_info) :
  load_models models md = Ok md' ->
  info_get md k = Some info ->
  (forall model, In model models ->
     truthy (fst (item_of model)) = true ->
     key_eqb (fst (item_of model)) k = false) ->
  info_get md' k = Some info.
Proof.
  revert md. induction models as [|model models IH]; intros md H Hget Hother.
  - simpl in H. now inversion H; subst.
  - cbn [load_models] in H. pose proof (Hother model (or_introl eq_refl)) as Hm.
    destruct (item_of model) as [model_id i]. simpl in Hm.
    destruct (truthy model_id).
    + destruct (hashable model_id); [|discriminate].
      apply (IH _ H); [|intros m Hin; apply Hother; now right].
      rewrite info_get_set_other; auto.
    + apply (IH _ H); [exact Hget|]. intros m Hin. apply Hother. now right.
Qed.

(** X9: the ids [load_models_json] returns are truthy and pairwise
    different, and what is stored under an id is what the function makes of
    a model of the file with that id. *)
Theorem load_models_json_ids (models : list dict) (md : models_data) :
  load_models_json models = Ok md ->
  NoDup (map fst md)
  /\ forall model_id info, In (model_id, info) md ->
       exists model,
         In model models
         /\ truthy (get_default model "modelId" (VStr "")) = true
         /\ key_eqb model_id (get_default model "modelId" (VStr "")) = true
         /\ info = snd (item_of model)
         /\ full_model info = model.
Proof.
  intros H. split; [now apply (load_models_json_unique_ids models)|].
  intros model_id info Hin.
  destruct (load_models_from _ _ _ H _ Hin) as [[]|(m & Hm & Ht & Hk & Hs)].
  exists m. simpl in *. subst info. auto.
Qed.

(** X10: of the models of the file with the same id, the last is the one
    stored under the id. *)
Theorem load_models_json_last_wins (models1 models2 : list dict) (model : dict)
    (md : models_data) :
  load_models_json (models1 ++ model :: models2) = Ok md ->
  truthy (get_default model "modelId" (VStr "")) = true ->
  (forall later, In later models2 ->
     truthy (get_default later "modelId" (VStr "")) = true ->
     key_eqb (get_default later "modelId" (VStr ""))
       (get_default model "modelId" (VStr "")) = false) ->
  info_get md (get_default model "modelId" (VStr "")) = Some (snd (item_of model)).
Proof.
  unfold load_models_json. rewrite load_models_app. intros H Ht Hlater.
  destruct (load_models models1 []) as [md1|e]; [|discriminate].
  cbn [bind load_models] in H.
  change (item_of model)
    with (get_default model "modelId" (VStr ""), snd (item_of model)) in H.
  cbv beta iota in H. rewrite Ht in H.
  destruct (hashable (get_default model "modelId" (VStr ""))) eqn:Hh;
    [|discriminate].
  apply (load_models_keeps _ _ _ _ _ H); [now apply info_get_set_same|].
  exact Hlater.
Qed.

(** X11: [load_models_json] raises exactly when a model of the file has a
    truthy id that cannot be a dictionary key, and then [TypeError]. *)
Theorem load_models_json_raises_for_unhashable_id (models : list dict) :
  match load_models_json models with
  | Ok _ => forallb loadable models = true
  | Raise e => e = TypeError /\ forallb loadable models = false
  end.
Proof.
  unfold load_models_json. generalize (@nil (value * model_info)).
  induction models as [|model models IH]; intros md; [reflexivity|].
  cbn [load_models forallb]. unfold loadable at 1 3.
  destruct (item_of model) as [model_id info]. cbn [fst].
  destruct (truthy model_id); [|apply IH].
  destruct (hashable model_id); [apply IH | now split].
Qed.

(** ** More about the classifier *)

Lemma string_app_assoc (a b c : string) :
  ((a ++ b) ++ c = a ++ b ++ c)%string.
Proof. induction a as [|x a IH]; simpl; congruence. Qed.






Lemma partition_lengths (html_content : string) (md : models_data) :
  List.length (filter (goes_beta html_content) md)
  + List.length (filter (goes_found html_content) md)
  + List.length (filter (fun item => legacy (snd item)) md)
  = List.length md.
Proof.
  induction md as [|item md IH]; simpl; [reflexivity|].
  unfold goes_beta, goes_found.
  destruct (legacy (snd item)), (located html_content (snd item)); simpl;
    unfold goes_beta, goes_found in IH; lia.
Qed.

(** X14: when the classifier returns, each of its two lists has its rows
    in the order of the catalog, and every entry of the catalog is a row of
    the one, a row of the other, or LEGACY. *)
Theorem partitions_keep_order_and_count (md : models_data)
    (html_content : string) (beta found : list row) :
  find_beta_models md html_content = Ok (beta, found) ->
  beta = map row_of_item (filter (goes_beta html_content) md)
  /\ found = map row_of_item (filter (goes_found html_content) md)
  /\ List.length beta + List.length found
     + List.length (filter (fun item => legacy (snd item)) md)
     = List.length md.
Proof.
  intros H. apply find_beta_models_returns in H as [-> ->].
  split; [reflexivity|]. split; [reflexivity|].
  rewrite !length_map. apply partition_lengths.
Qed.

Lemma loop_body_raises_which (html_content : string)
    (acc : list row * list row) (item : value * model_info) (e : exn) :
  loop_body html_content acc item = Raise e ->
  (lifecycle_status (full_model (snd item)) = Raise AttributeError
   /\ e = AttributeError)
  \/ (legacy (snd item) = false /\ is_str (name (snd item)) = false
      /\ e = TypeError).
Proof.
  destruct item as [model_id info], acc as [beta_models found_models].
  unfold loop_body, legacy, lifecycle_status; simpl.
  destruct (get_default (full_model info) "modelLifecycle" (VDict []));
    simpl; try (intros H; inversion H; now left).
  destruct (py_eq_str _ "LEGACY"); simpl; [discriminate|].
  destruct (name info); simpl; try (intros H; inversion H; now right).
  destruct (str_in s html_content); simpl; [discriminate|].
  destruct (str_in (lower s) (lower html_content)); discriminate.
Qed.

(** X15: the classifier raises at the first entry that is not well typed,
    whatever the text: [AttributeError] when its [modelLifecycle] is not a
    dict, [TypeError] when it is not LEGACY and its name is not a string.  A
    LEGACY entry's name is never looked at. *)
Theorem classifier_raises_at_first_bad_entry (md : models_data)
    (html_content : string) (e : exn) :
  find_beta_models md html_content = Raise e ->
  exists md1 item md2,
    md = md1 ++ item :: md2
    /\ well_typed md1 = true
    /\ entry_ok (snd item) = false
    /\ ((lifecycle_status (full_model (snd item)) = Raise AttributeError
         /\ e = AttributeError)
        \/ (legacy (snd item) = false /\ is_str (name (snd item)) = false
            /\ e = TypeError)).
Proof.
  unfold find_beta_models. generalize (@nil row, @nil row).
  induction md as [|item md IH]; intros acc H; [discriminate|].
  cbn [loop] in H. destruct (entry_ok (snd item)) eqn:Hok.
  - destruct acc as [b f]. rewrite (loop_body_ok _ _ _ _ Hok) in H.
    cbn [bind] in H. destruct (IH _ H) as (md1 & bad & md2 & -> & Hwt & Hbad).
    exists (item :: md1), bad, md2. simpl. rewrite Hok, Hwt. auto.
  - destruct (loop_body html_content acc item) as [acc'|e'] eqn:Hbody.
    + destruct (loop_body_raises html_content acc item Hok) as [e2 He2].
      congruence.
    + cbn [bind] in H. inversion H; subst e'.
      exists [], item, md. repeat split; auto.
      now apply (loop_body_raises_which html_content acc).
Qed.

(** ** [normalize_model_name] *)

Lemma lower_char_idem (c : ascii) : lower_char (lower_char c) = lower_char c.
Proof. destruct c as [[] [] [] [] [] [] [] []]; reflexivity. Qed.

Lemma is_space_lower_char (c : ascii) : is_space (lower_char c) = is_space c.
Proof. destruct c as [[] [] [] [] [] [] [] []]; reflexivity. Qed.

Lemma lower_idem (s : string) : lower (lower s) = lower s.
Proof.
  induction s as [|c s IH]; simpl; [reflexivity|].
  now rewrite lower_char_idem, IH.
Qed.

Lemma lower_lstrip (s : string) : lower (lstrip s) = lstrip (lower s).
Proof.
  induction s as [|c s IH]; simpl; [reflexivity|].
  rewrite is_space_lower_char. now destruct (is_space c).
Qed.

Lemma lower_rstrip (s : string) : lower (rstrip s) = rstrip (lower s).
Proof.
  induction s as [|c s IH]; simpl; [reflexivity|].
  rewrite <- IH, is_space_lower_char.
  destruct (rstrip s); simpl; [now destruct (is_space c) | reflexivity].
Qed.

Lemma lstrip_idem (s : string) : lstrip (lstrip s) = lstrip s.
Proof.
  induction s as [|c s IH]; simpl; [reflexivity|].
  destruct (is_space c) eqn:E; [exact IH|]. simpl. now rewrite E.
Qed.

Lemma rstrip_idem (s : string) : rstrip (rstrip s) = rstrip s.
Proof.
  induction s as [|c s IH]; simpl; [reflexivity|].
  destruct (rstrip s) as [|d r] eqn:E.
  - destruct (is_space c) eqn:Ec; simpl; [reflexivity | now rewrite Ec].
  - change (rstrip (String c (String d r)))
      with (match rstrip (String d r) with
            | EmptyString =>
                if is_space c then EmptyString else String c EmptyString
            | String x rest' => String c (String x rest')
            end).
    now rewrite IH.
Qed.

Lemma rstrip_lstrip (s : string) : rstrip (lstrip s) = lstrip (rstrip s).
Proof.
  induction s as [|c s IH]; [reflexivity|].
  cbn [lstrip rstrip]. destruct (is_space c) eqn:Ec.
  - rewrite IH. destruct (rstrip s) as [|d r]; [reflexivity|].
    cbn [lstrip]. now rewrite Ec.
  - cbn [rstrip]. destruct (rstrip s) as [|d r]; rewrite ?Ec;
      cbn [lstrip]; now rewrite Ec.
Qed.

Lemma strip_idem (s : string) : strip (strip s) = strip s.
Proof.
  unfold strip. now rewrite rstrip_lstrip, lstrip_idem, rstrip_idem.
Qed.

Lemma lower_strip (s : string) : lower (strip s) = strip (lower s).
Proof. unfold strip. now rewrite lower_lstrip, lower_rstrip. Qed.

(** X16: [normalize_model_name] gives a string for every string, has
    nothing left to do on its own result, which is in lower case and without
    white space at either end, and gives the empty string for [None] and
    for the empty name. *)
Theorem normalize_model_name_is_idempotent (s : string) :
  exists t,
    normalize_model_name (VStr s) = Ok t
    /\ normalize_model_name (VStr t) = Ok t
    /\ lower t = t
    /\ strip t = t
    /\ normalize_model_name VNone = Ok ""
    /\ normalize_model_name (VStr "") = Ok ""
    /\ (forall v, truthy v = true -> is_str v = false ->
        normalize_model_name v = Raise AttributeError).
Proof.
  assert (Hn : forall u, normalize_model_name (VStr u) = Ok (strip (lower u))).
  { intros u. unfold normalize_model_name. simpl.
    destruct u; reflexivity. }
  exists (strip (lower s)). rewrite !Hn.
  rewrite lower_strip, lower_idem, strip_idem.
  repeat split; try reflexivity.
  intros v Ht Hs. unfold normalize_model_name. rewrite Ht. simpl.
  destruct v; try reflexivity; discriminate.
Qed.

(** ** The table of [update_readme_table] *)

Lemma string_ltb_lt (a b : string) :
  (a <? b)%string = true <-> OrderedTypeEx.String_as_OT.lt a b.
Proof.
  rewrite <- OrderedTypeEx.String_as_OT.cmp_lt.
  unfold String.ltb, OrderedTypeEx.String_as_OT.cmp.
  destruct (String.compare a b); split; congruence.
Qed.

Lemma string_ltb_irrefl (a : string) : (a <? a)%string = false.
Proof.
  pose proof (proj2 (OrderedTypeEx.String_as_OT.cmp_eq a a) eq_refl) as H.
  unfold OrderedTypeEx.String_as_OT.cmp in H. unfold String.ltb.
  now rewrite H.
Qed.

Lemma string_ltb_trans (a b c : string) :
  (a <? b)%string = true -> (b <? c)%string = true -> (a <? c)%string = true.
Proof.
  rewrite !string_ltb_lt. apply OrderedTypeEx.String_as_OT.lt_trans.
Qed.

Lemma string_ltb_connected (a b : string) :
  (a <? b)%string = false -> (b <? a)%string = false -> a = b.
Proof.
  unfold String.ltb. rewrite (String.compare_antisym b a).
  destruct (String.compare a b) eqn:E; simpl; try discriminate.
  intros _ _. now apply String.compare_eq_iff.
Qed.

Lemma key_ltb_irrefl (a : string * string) : key_ltb a a = false.
Proof. unfold key_ltb. rewrite String.eqb_refl. apply string_ltb_irrefl. Qed.

Lemma key_ltb_trans (a b c : string * string) :
  key_ltb a b = true -> key_ltb b c = true -> key_ltb a c = true.
Proof.
  unfold key_ltb.
  destruct (fst a =? fst b) eqn:Eab; [apply String.eqb_eq in Eab|];
    destruct (fst b =? fst c) eqn:Ebc; try apply String.eqb_eq in Ebc.
  - rewrite Eab, Ebc, String.eqb_refl. apply string_ltb_trans.
  - rewrite Eab, Ebc. auto.
  - rewrite <- Ebc, Eab. auto.
  - intros H1 H2. pose proof (string_ltb_trans _ _ _ H1 H2) as H.
    destruct (fst a =? fst c) eqn:Eac; [|exact H].
    apply String.eqb_eq in Eac. rewrite Eac in H.
    now rewrite string_ltb_irrefl in H.
Qed.

Lemma key_ltb_connected (a b : string * string) :
  key_ltb a b = false -> key_ltb b a = false -> a = b.
Proof.
  unfold key_ltb. rewrite (String.eqb_sym (fst b) (fst a)).
  destruct a as [a1 a2], b as [b1 b2]. simpl.
  destruct (a1 =? b1) eqn:E.
  - apply String.eqb_eq in E. subst. intros H1 H2.
    now rewrite (string_ltb_connected _ _ H1 H2).
  - intros H1 H2. rewrite (string_ltb_connected _ _ H1 H2) in E.
    now rewrite String.eqb_refl in E.
Qed.

Lemma key_le_trans (x y z : text_row) :
  key_le x y -> key_le y z -> key_le x z.
Proof.
  unfold key_le. intros Hxy Hyz.
  destruct (key_ltb (sort_key z) (sort_key x)) eqn:Hzx; [|reflexivity].
  destruct (key_ltb (sort_key y) (sort_key z)) eqn:Hyz'.
  - now rewrite (key_ltb_trans _ _ _ Hyz' Hzx) in Hxy.
  - rewrite (key_ltb_connected _ _ Hyz' Hyz) in Hxy. congruence.
Qed.

Lemma key_ltb_le (x y : text_row) :
  key_ltb (sort_key y) (sort_key x) = true -> key_le y x.
Proof.
  unfold key_le. intros H.
  destruct (key_ltb (sort_key x) (sort_key y)) eqn:E; [|reflexivity].
  pose proof (key_ltb_trans _ _ _ H E) as Hc.
  now rewrite key_ltb_irrefl in Hc.
Qed.

Lemma insert_row_perm (x : text_row) (l : list text_row) :
  Permutation (x :: l) (insert_row x l).
Proof.
  induction l as [|y l IH]; simpl; [reflexivity|].
  destruct (key_ltb (sort_key y) (sort_key x)); [|reflexivity].
  rewrite perm_swap. now apply perm_skip.
Qed.

Lemma insert_row_sorted (x : text_row) (l : list text_row) :
  StronglySorted key_le l -> StronglySorted key_le (insert_row x l).
Proof.
  induction 1 as [|y l Hs IH Hy]; simpl.
  - repeat constructor.
  - destruct (key_ltb (sort_key y) (sort_key x)) eqn:E.
    + constructor; [exact IH|].
      rewrite <- (insert_row_perm x l). constructor; [|exact Hy].
      now apply key_ltb_le.
    + constructor; [now constructor|]. constructor; [exact E|].
      eapply Forall_impl; [|exact Hy]. intros z. now apply key_le_trans.
Qed.

Lemma same_key_ltb (k : string * string) (x y : text_row) :
  same_key k x = true -> same_key k y = true ->
  key_ltb (sort_key y) (sort_key x) = false.
Proof.
  unfold same_key. rewrite !andb_true_iff, !String.eqb_eq.
  intros [H1 H2] [H3 H4].
  assert (sort_key y = sort_key x) as ->.
  { destruct (sort_key x), (sort_key y). simpl in *. congruence. }
  apply key_ltb_irrefl.
Qed.

Lemma insert_row_stable (k : string * string) (x : text_row)
    (l : list text_row) :
  filter (same_key k) (insert_row x l) = filter (same_key k) (x :: l).
Proof.
  induction l as [|y l IH]; [reflexivity|].
  cbn [insert_row].
  destruct (key_ltb (sort_key y) (sort_key x)) eqn:E; [|reflexivity].
  cbn [filter] in *. rewrite IH.
  destruct (same_key k x) eqn:Hx, (same_key k y) eqn:Hy; try reflexivity.
  now rewrite (same_key_ltb k x y Hx Hy) in E.
Qed.

Lemma sorted_rows_perm (l : list text_row) : Permutation l (sorted_rows l).
Proof.
  induction l as [|x l IH]; simpl; [reflexivity|].
  rewrite <- insert_row_perm. now apply perm_skip.
Qed.

Lemma sorted_rows_sorted (l : list text_row) :
  StronglySorted key_le (sorted_rows l).
Proof.
  induction l as [|x l IH]; simpl; [constructor|].
  now apply insert_row_sorted.
Qed.

Lemma sorted_rows_stable (k : string * string) (l : list text_row) :
  filter (same_key k) (sorted_rows l) = filter (same_key k) l.
Proof.
  induction l as [|x l IH]; [reflexivity|].
  cbn [sorted_rows fold_right]. rewrite insert_row_stable.
  cbn [filter]. fold (sorted_rows l). now rewrite IH.
Qed.

(** X17: the rows of the table are the beta models, each once, in
    ascending order of provider and then name, the models with the same
    provider and name in the order they were given; the table has two
    lines before them. *)
Theorem table_rows_are_sorted (beta_models : list text_row) :
  Permutation beta_models (sorted_rows beta_models)
  /\ StronglySorted key_le (sorted_rows beta_models)
  /\ (forall k, filter (same_key k) (sorted_rows beta_models)
                = filter (same_key k) beta_models)
  /\ table_rows beta_models
     = ["| Model Name | Model ID | Provider |"; "|---|---|---|"]
         ++ map table_line (sorted_rows beta_models)
  /\ List.length (table_rows beta_models) = 2 + List.length beta_models.
Proof.
  split; [apply sorted_rows_perm|]. split; [apply sorted_rows_sorted|].
  split; [intros k; apply sorted_rows_stable|]. split; [reflexivity|].
  unfold table_rows. simpl. rewrite length_map.
  now rewrite <- (Permutation_length (sorted_rows_perm beta_models)).
Qed.

(** ** The replacement between the markers *)

Lemma strip_prefix_app (p s r : string) :
  strip_prefix p s = Some r -> s = (p ++ r)%string.
Proof.
  revert s. induction p as [|a p IH]; intros s; simpl.
  - congruence.
  - destruct s as [|b s]; [discriminate|].
    destruct (Ascii.eqb a b) eqn:E; [|discriminate].
    apply Ascii.eqb_eq in E. subst b. intros H. now rewrite (IH _ H).
Qed.

Lemma strip_prefix_same (p r : string) : strip_prefix p (p ++ r) = Some r.
Proof.
  induction p as [|a p IH]; simpl; [reflexivity|].
  now rewrite Ascii.eqb_refl.
Qed.

Lemma strip_prefix_none (p s : string) :
  strip_prefix p s = None <-> String.prefix p s = false.
Proof.
  revert s. induction p as [|a p IH]; intros s.
  - destruct s; simpl; split; discriminate.
  - destruct s as [|b s]; [simpl; tauto|].
    cbn [strip_prefix String.prefix].
    destruct (ascii_dec a b) as [->|Hne].
    + rewrite Ascii.eqb_refl. apply IH.
    + apply Ascii.eqb_neq in Hne. rewrite Hne. tauto.
Qed.

Lemma split_first_app (n h a b : string) :
  split_first n h = Some (a, b) -> h = (a ++ n ++ b)%string.
Proof.
  revert a. induction h as [|c h IH]; intros a; cbn [split_first].
  - destruct (strip_prefix n "") as [rest|] eqn:E; [|discriminate].
    intros H. inversion H; subst. simpl. now apply strip_prefix_app.
  - destruct (strip_prefix n (String c h)) as [rest|] eqn:E.
    + intros H. inversion H; subst. simpl. now apply strip_prefix_app.
    + destruct (split_first n h) as [[a' b']|]; [|discriminate].
      intros H. inversion H; subst. simpl. now rewrite (IH a' eq_refl).
Qed.

Lemma split_first_none (n h : string) :
  split_first n h = None <-> str_in n h = false.
Proof.
  induction h as [|c h IH].
  - cbn [split_first str_in]. rewrite orb_false_r, <- strip_prefix_none.
    destruct (strip_prefix n ""); split; congruence.
  - change (str_in n (String c h))
      with (String.prefix n (String c h) || str_in n h).
    cbn [split_first]. rewrite orb_false_iff, <- strip_prefix_none, <- IH.
    destruct (strip_prefix n (String c h)).
    + split; [discriminate | intros [H _]; discriminate].
    + destruct (split_first n h) as [[a b]|]; split; try tauto; try discriminate.
      intros [_ H]. discriminate.
Qed.

Lemma string_length_app (a b : string) :
  String.length (a ++ b) = String.length a + String.length b.
Proof. induction a as [|c a IH]; simpl; congruence. Qed.

Lemma string_app_nil (a : string) : (a ++ "")%string = a.
Proof. induction a as [|c a IH]; simpl; congruence. Qed.

Lemma split_first_shorter (n h a b : string) :
  split_first n h = Some (a, b) ->
  String.length b + String.length n <= String.length h.
Proof.
  intros H. rewrite (split_first_app _ _ _ _ H), !string_length_app. lia.
Qed.

(** More steps than the text has characters change nothing. *)
Lemma sub_all_fuel (b e : string) (repl : string -> string)
    (fuel1 fuel2 : nat) (text : string) :
  b <> EmptyString ->
  String.length text <= fuel1 -> String.length text <= fuel2 ->
  sub_all fuel1 b e repl text = sub_all fuel2 b e repl text.
Proof.
  intros Hb. assert (Hlen : 1 <= String.length b) by (destruct b; simpl; [congruence | lia]).
  revert fuel2 text. induction fuel1 as [|fuel1 IH]; intros fuel2 text H1 H2.
  - destruct text; [|simpl in H1; lia]. destruct fuel2; [reflexivity|].
    simpl. destruct b; [congruence | reflexivity].
  - destruct fuel2 as [|fuel2].
    + destruct text; [|simpl in H2; lia]. simpl.
      destruct b; [congruence | reflexivity].
    + cbn [sub_all].
      destruct (split_first b text) as [[before rest]|] eqn:Hsb; [|reflexivity].
      destruct (split_first e rest) as [[between after]|] eqn:Hse; [|reflexivity].
      pose proof (split_first_shorter _ _ _ _ Hsb).
      pose proof (split_first_shorter _ _ _ _ Hse).
      rewrite (IH fuel2 after); [reflexivity | lia | lia].
Qed.

Lemma sub_between_step (b e : string) (repl : string -> string) (text : string) :
  b <> EmptyString ->
  sub_between b e repl text
  = match split_first b text with
    | None => text
    | Some (before, rest) =>
        match split_first e rest with
        | None => text
        | Some (between, after) =>
            (before ++ repl (b ++ between ++ e)
               ++ sub_between b e repl after)%string
        end
    end.
Proof.
  intros Hb. unfold sub_between.
  destruct (String.length text) as [|n] eqn:Hn.
  - destruct text; [|discriminate]. simpl. destruct b; [congruence|reflexivity].
  - cbn [sub_all].
    destruct (split_first b text) as [[before rest]|] eqn:Hsb; [|reflexivity].
    destruct (split_first e rest) as [[between after]|] eqn:Hse; [|reflexivity].
    pose proof (split_first_shorter _ _ _ _ Hsb).
    pose proof (split_first_shorter _ _ _ _ Hse).
    assert (1 <= String.length b) by (destruct b; simpl; [congruence | lia]).
    rewrite (sub_all_fuel b e repl n (String.length after) after); auto; lia.
Qed.

Lemma strip_prefix_none_tail (n x r r' : string) :
  String.length n <= String.length x ->
  strip_prefix n (x ++ r) = None -> strip_prefix n (x ++ r') = None.
Proof.
  revert x. induction n as [|a n IH]; intros x Hlen; simpl; [discriminate|].
  destruct x as [|c x]; simpl in *; [lia|].
  destruct (Ascii.eqb a c); [|reflexivity]. apply IH. lia.
Qed.

(** Where the leftmost [n] is does not depend on what comes after it. *)
Lemma split_first_tail (n a r r' : string) :
  split_first n (a ++ n ++ r) = Some (a, r) ->
  split_first n (a ++ n ++ r') = Some (a, r').
Proof.
  induction a as [|c a IH]; intros H.
  - simpl. destruct (n ++ r')%string eqn:E; cbn [split_first];
      rewrite <- E, strip_prefix_same; reflexivity.
  - change (String c a ++ n ++ r)%string with (String c (a ++ n ++ r)) in H.
    change (String c a ++ n ++ r')%string with (String c (a ++ n ++ r')).
    cbn [split_first] in H |- *.
    destruct (strip_prefix n (String c (a ++ n ++ r))) eqn:E;
      [now inversion H|].
    change (String c (a ++ n ++ r))
      with (String c a ++ n ++ r)%string in E.
    rewrite <- string_app_assoc in E.
    apply (strip_prefix_none_tail n _ r r') in E.
    2:{ rewrite string_length_app. simpl. lia. }
    rewrite string_app_assoc in E.
    change (String c a ++ n ++ r')%string with (String c (a ++ n ++ r')) in E.
    rewrite E.
    destruct (split_first n (a ++ n ++ r)) as [[a' b']|] eqn:Hs;
      [|now inversion H].
    inversion H; subst. now rewrite (IH eq_refl).
Qed.

Lemma str_in_app_intro (n a b : string) :
  str_in n (a ++ n ++ b) = true.
Proof. apply str_in_iff_substring. now exists a, b. Qed.

Lemma str_in_char_app (c : ascii) (a b : string) :
  str_in (String c "") (a ++ b)
  = str_in (String c "") a || str_in (String c "") b.
Proof.
  induction a as [|x a IH].
  - simpl. destruct b; reflexivity.
  - change (str_in (String c "") (String x a ++ b))
      with (String.prefix (String c "") (String x (a ++ b))
            || str_in (String c "") (a ++ b)).
    change (str_in (String c "") (String x a))
      with (String.prefix (String c "") (String x a) || str_in (String c "") a).
    rewrite IH, orb_assoc. f_equal. simpl.
    destruct (ascii_dec c x); [|reflexivity].
    assert (Hnil : forall u, String.prefix "" u = true) by now destruct u.
    now rewrite !Hnil.
Qed.

Section ReadmeFacts.

Variable expand_template : string -> result (string -> string).

(** A template without a backslash stands for itself. *)
Hypothesis expand_literal :
  forall template,
    str_in backslash template = false ->
    expand_template template = Ok (fun _ => template).

Lemma replacement_literal (beta_models : list text_row) :
  str_in backslash (markdown_table beta_models) = false ->
  expand_template (replacement beta_models)
  = Ok (fun _ => replacement beta_models).
Proof.
  intros H. apply expand_literal. unfold replacement, backslash.
  rewrite !str_in_char_app. unfold backslash in H. rewrite H. reflexivity.
Qed.

Lemma begin_marker_not_empty : begin_marker <> EmptyString.
Proof. discriminate. Qed.

(** X18: the README is written back only when it has both markers, and
    what is written back has both markers again. *)
Theorem update_keeps_the_markers (beta_models : list text_row)
    (readme_content : string) :
  str_in backslash (markdown_table beta_models) = false ->
  match update_readme_table expand_template beta_models readme_content with
  | Ok None =>
      str_in begin_marker readme_content = false
      \/ str_in end_marker readme_content = false
  | Ok (Some new_content) =>
      str_in begin_marker readme_content = true
      /\ str_in end_marker readme_content = true
      /\ str_in begin_marker new_content = true
      /\ str_in end_marker new_content = true
  | Raise _ => False
  end.
Proof.
  intros Hplain. unfold update_readme_table.
  destruct (str_in begin_marker readme_content) eqn:Hb; simpl; [|now left].
  destruct (str_in end_marker readme_content) eqn:He; simpl; [|now right].
  rewrite (replacement_literal _ Hplain). cbn [bind].
  split; [reflexivity|]. split; [reflexivity|].
  rewrite (sub_between_step _ _ _ _ begin_marker_not_empty).
  destruct (split_first begin_marker readme_content) as [[before rest]|];
    [|now split].
  destruct (split_first end_marker rest) as [[between after]|]; [|now split].
  unfold replacement. split.
  - apply str_in_iff_substring. eexists before, _.
    rewrite !string_app_assoc. reflexivity.
  - apply str_in_iff_substring.
    exists (before ++ begin_marker ++ newline
              ++ markdown_table beta_models ++ newline)%string.
    eexists. rewrite !string_app_assoc. reflexivity.
Qed.

Lemma update_replaces_between_markers_aux (beta_models : list text_row)
    (readme_content before rest between after : string) :
  str_in backslash (markdown_table beta_models) = false ->
  split_first begin_marker readme_content = Some (before, rest) ->
  split_first end_marker rest = Some (between, after) ->
  str_in begin_marker after = false ->
  readme_content
  = (before ++ begin_marker ++ between ++ end_marker ++ after)%string
  /\ update_readme_table expand_template beta_models readme_content
     = Ok (Some (before ++ begin_marker ++ newline
                   ++ markdown_table beta_models ++ newline
                   ++ end_marker ++ after)%string).
Proof.
  intros Hplain Hsb Hse Hafter.
  pose proof (split_first_app _ _ _ _ Hsb) as Hreadme.
  pose proof (split_first_app _ _ _ _ Hse) as Hrest.
  split; [now rewrite Hreadme, Hrest|].
  unfold update_readme_table.
  assert (Hb : str_in begin_marker readme_content = true).
  { rewrite Hreadme. apply str_in_app_intro. }
  assert (He : str_in end_marker readme_content = true).
  { rewrite Hreadme, Hrest. apply str_in_iff_substring.
    exists (before ++ begin_marker ++ between)%string, after.
    now rewrite !string_app_assoc. }
  rewrite Hb, He. simpl. rewrite (replacement_literal _ Hplain). cbn [bind].
  rewrite (sub_between_step _ _ _ _ begin_marker_not_empty), Hsb, Hse.
  rewrite (sub_between_step _ _ _ _ begin_marker_not_empty).
  rewrite (proj2 (split_first_none _ _) Hafter).
  unfold replacement. now rewrite !string_app_assoc.
Qed.

(** X19: in a README with one begin marker followed by an end marker, the
    text from the one to the other becomes the markers with the table
    between them, and the text before and after stays. *)
Theorem update_replaces_between_markers (beta_models : list text_row)
    (readme_content before rest between after : string) :
  str_in backslash (markdown_table beta_models) = false ->
  split_first begin_marker readme_content = Some (before, rest) ->
  split_first end_marker rest = Some (between, after) ->
  str_in begin_marker after = false ->
  readme_content
  = (before ++ begin_marker ++ between ++ end_marker ++ after)%string
  /\ update_readme_table expand_template beta_models readme_content
     = Ok (Some (before ++ begin_marker ++ newline
                   ++ markdown_table beta_models ++ newline
                   ++ end_marker ++ after)%string).
Proof. apply update_replaces_between_markers_aux. Qed.

(** X20: updating the README a second time with the same models writes
    back what the first update wrote, when the end marker is not in the
    table. *)
Theorem update_twice_is_update_once (beta_models : list text_row)
    (readme_content before rest between after new_content : string) :
  str_in backslash (markdown_table beta_models) = false ->
  split_first begin_marker readme_content = Some (before, rest) ->
  split_first end_marker rest = Some (between, after) ->
  str_in begin_marker after = false ->
  split_first end_marker
    (newline ++ markdown_table beta_models ++ newline ++ end_marker)
  = Some ((newline ++ markdown_table beta_models ++ newline)%string,
          EmptyString) ->
  update_readme_table expand_template beta_models readme_content
  = Ok (Some new_content) ->
  update_readme_table expand_template beta_models new_content
  = Ok (Some new_content).
Proof.
  intros Hplain Hsb Hse Hafter Htable Hfirst.
  destruct (update_replaces_between_markers_aux beta_models readme_content
              before rest between after Hplain Hsb Hse Hafter) as [_ Hnew].
  assert (Hnc : new_content
                = (before ++ begin_marker ++ newline
                     ++ markdown_table beta_models ++ newline
                     ++ end_marker ++ after)%string) by congruence.
  subst new_content. clear Hfirst Hnew.
  refine (proj2 (update_replaces_between_markers_aux beta_models _ before
                   (newline ++ markdown_table beta_models ++ newline
                      ++ end_marker ++ after)%string
                   (newline ++ markdown_table beta_models ++ newline)%string
                   after Hplain _ _ Hafter)).
  - apply split_first_tail with (r := rest).
    rewrite <- (split_first_app _ _ _ _ Hsb). exact Hsb.
  - pose proof (split_first_tail end_marker
                  (newline ++ markdown_table beta_models ++ newline)
                  EmptyString after) as H.
    rewrite string_app_nil, !string_app_assoc in H.
    apply H. exact Htable.
Qed.

(** X21: when the README has both markers but no end marker after its
    first begin marker, it is written back as it was read. *)
Theorem update_without_closing_marker (beta_models : list text_row)
    (readme_content before rest : string) :
  str_in backslash (markdown_table beta_models) = false ->
  str_in end_marker readme_content = true ->
  split_first begin_marker readme_content = Some (before, rest) ->
  str_in end_marker rest = false ->
  update_readme_table expand_template beta_models readme_content
  = Ok (Some readme_content).
Proof.
  intros Hplain He Hsb Hrest. unfold update_readme_table.
  assert (Hb : str_in begin_marker readme_content = true).
  { rewrite (split_first_app _ _ _ _ Hsb). apply str_in_app_intro. }
  rewrite Hb, He. simpl. rewrite (replacement_literal _ Hplain). cbn [bind].
  rewrite (sub_between_step _ _ _ _ begin_marker_not_empty), Hsb.
  now rewrite (proj2 (split_first_none _ _) Hrest).
Qed.

End ReadmeFacts.

(** ** More scenarios *)

Lemma literal_template_literal (template : string) :
  str_in backslash template = false ->
  literal_template template = Ok (fun _ => template).
Proof. intros H. unfold literal_template. now rewrite H. Qed.

Example catalog_of_three_batches :
  catalog_of
    (flatten
       [("a", [descriptor "m1" "Foo" "P" "ACTIVE";
               descriptor "m2" "Bar" "P" "ACTIVE"]);
        ("b", [descriptor "m2" "BAR" "Q" "ACTIVE"; [("modelName", VStr "x")];
               descriptor "m1" "Foo" "P" "ACTIVE"]);
        ("a", [descriptor "m2" "Bar" "P" "ACTIVE"])])
  = [(VStr "m1",
      dict_set (descriptor "m1" "Foo" "P" "ACTIVE") "regions"
        (VList [VStr "a"; VStr "b"]));
     (VStr "m2",
      dict_set (descriptor "m2" "Bar" "P" "ACTIVE") "regions"
        (VList [VStr "a"; VStr "b"]))].
Proof. reflexivity. Qed.

Example readme_is_updated :
  update_readme_table literal_template beta_rows readme_text
  = Ok (Some ("# Models" ++ newline ++ begin_marker ++ newline
                ++ "| Model Name | Model ID | Provider |" ++ newline
                ++ "|---|---|---|" ++ newline
                ++ "| Command | m1 | Amazon |" ++ newline
                ++ "| Nova | m2 | Amazon |" ++ newline
                ++ "| Claude 5 | m7 | Anthropic |" ++ newline
                ++ end_marker ++ newline ++ "footer")%string).
Proof. reflexivity. Qed.

Lemma merge_builds_catalog_of_steps_witness :
  [(VStr "m1",
    dict_set (descriptor "m1" "Foo" "P" "ACTIVE") "regions"
      (VList [VStr "a"; VStr "b"]))]
  = catalog_of (flatten scenario_A).
Proof. apply (merge_builds_catalog_of_steps scenario_A). reflexivity. Defined.

Lemma entry_lists_reporting_regions_witness :
  In (VStr "b")
    (regions_of (dict_set (descriptor "m1" "Foo" "P" "ACTIVE") "regions"
                   (VList [VStr "a"; VStr "b"])))
  <-> exists model,
        In ("b", model) (flatten scenario_A)
        /\ truthy (get_default model "modelId" VNone) = true
        /\ key_eqb (get_default model "modelId" VNone) (VStr "m1") = true.
Proof.
  apply (entry_lists_reporting_regions scenario_A
           [(VStr "m1",
             dict_set (descriptor "m1" "Foo" "P" "ACTIVE") "regions"
               (VList [VStr "a"; VStr "b"]))]).
  - reflexivity.
  - left. reflexivity.
Defined.

Lemma merge_raises_only_for_unhashable_id_witness :
  TypeError = TypeError
  /\ exists s1 step s2,
       flatten [("a", [descriptor "m1" "Foo" "P" "ACTIVE";
                       [("modelId", VList [VStr "m2"])]])]
       = s1 ++ step :: s2
       /\ merge_steps s1 []
          = (Ok tt,
             [(VStr "m1",
               dict_set (descriptor "m1" "Foo" "P" "ACTIVE") "regions"
                 (VList [VStr "a"]))])
       /\ truthy (step_id step) = true
       /\ hashable (step_id step) = false.
Proof.
  apply (merge_raises_only_for_unhashable_id
           [("a", [descriptor "m1" "Foo" "P" "ACTIVE";
                   [("modelId", VList [VStr "m2"])]])]
           (Raise TypeError)).
  reflexivity.
Defined.

Lemma profiles_are_flattened_with_region_witness :
  exists st',
    collect_and_flatten_profiles scenario_P
      (set_supported_regions ["r1"; "r2"] init) = (Ok tt, st')
    /\ List.length (profiles_list st') = 4
    /\ In (annotate "r2" [("inferenceProfileId", VStr "p1");
                          ("region", VStr "elsewhere")])
         (profiles_list st').
Proof.
  eexists. split; [reflexivity|].
  destruct (profiles_are_flattened_with_region scenario_P
              (set_supported_regions ["r1"; "r2"] init) _ eq_refl)
    as (_ & Hlen & Hall).
  split; [exact Hlen|].
  apply (Hall "r2" [("inferenceProfileId", VStr "p1");
                    ("region", VStr "elsewhere")]).
  simpl. tauto.
Defined.


Lemma run_without_supported_region_witness :
  run scenario_none "data" init
  = (Exited 1, set_supported_regions [] (Nat.iter 3 tick init))
  /\ clock (snd (run scenario_none "data" init)) = 0 + 1 + 2
  /\ models_by_id (snd (run scenario_none "data" init)) = []
  /\ profiles_list (snd (run scenario_none "data" init)) = []
  /\ written (snd (run scenario_none "data" init)) = [].
Proof.
  apply (run_without_supported_region scenario_none "data" init ["r1"; "r2"]);
    reflexivity.
Defined.

Lemma run_writes_the_catalog_of_the_listings_witness :
  written (snd (run scenario_P "data" init))
  = [("data", "models.json",
      [dict_set (descriptor "m1" "Foo" "P" "ACTIVE") "regions"
         (VList [VStr "r1"; VStr "r2"])]);
     ("data", "profiles.json",
      [[("inferenceProfileId", VStr "p1"); ("region", VStr "r1")];
       [("inferenceProfileId", VStr "r1-only"); ("region", VStr "r1")];
       [("inferenceProfileId", VStr "p1"); ("region", VStr "r2")];
       [("inferenceProfileId", VStr "r2-only"); ("region", VStr "r2")]])].
Proof.
  rewrite (run_writes_the_catalog_of_the_listings scenario_P "data" init
             ["r1"; "r2"]); reflexivity.
Defined.

Lemma load_models_json_ids_witness :
  NoDup (map fst docs_catalog)
  /\ forall model_id info, In (model_id, info) docs_catalog ->
       exists model,
         In model
           [descriptor "m1" "Claude 3 Opus" "Anthropic" "ACTIVE";
            descriptor "m2" "Claude 4 Opus" "Anthropic" "ACTIVE";
            descriptor "m3" "MODEL-X" "P" "legacy";
            descriptor "m4" "Claude 3 Opus" "Anthropic" "LEGACY";
            descriptor "m5" "" "P" "ACTIVE";
            [("modelId", VStr "m6"); ("modelName", VStr "Claude 5")];
            [("modelName", VStr "no id")]]
         /\ truthy (get_default model "modelId" (VStr "")) = true
         /\ key_eqb model_id (get_default model "modelId" (VStr "")) = true
         /\ info = snd (item_of model)
         /\ full_model info = model.
Proof. apply load_models_json_ids. reflexivity. Defined.

Lemma load_models_json_last_wins_witness :
  info_get
    [(VStr "m1", snd (item_of (descriptor "m1" "Second" "P" "ACTIVE")));
     (VStr "m2", snd (item_of (descriptor "m2" "Other" "P" "ACTIVE")))]
    (VStr "m1")
  = Some (snd (item_of (descriptor "m1" "Second" "P" "ACTIVE"))).
Proof.
  apply (load_models_json_last_wins
           [descriptor "m1" "First" "P" "ACTIVE"]
           [descriptor "m2" "Other" "P" "ACTIVE"]
           (descriptor "m1" "Second" "P" "ACTIVE")).
  - reflexivity.
  - reflexivity.
  - intros later [<-|[]] _. reflexivity.
Defined.



Lemma partitions_keep_order_and_count_witness :
  List.length (map row_of_item (filter (goes_beta docs_text) docs_catalog))
  + List.length (map row_of_item (filter (goes_found docs_text) docs_catalog))
  + List.length (filter (fun item => legacy (snd item)) docs_catalog)
  = List.length docs_catalog.
Proof.
  apply (partitions_keep_order_and_count docs_catalog docs_text).
  reflexivity.
Defined.

Lemma classifier_raises_at_first_bad_entry_witness :
  exists md1 item md2,
    [item_of (descriptor "m1" "Foo" "P" "LEGACY");
     item_of [("modelId", VStr "m2"); ("modelName", VInt 7)];
     item_of [("modelId", VStr "m3"); ("modelLifecycle", VNone)]]
    = md1 ++ item :: md2
    /\ well_typed md1 = true
    /\ entry_ok (snd item) = false
    /\ ((lifecycle_status (full_model (snd item)) = Raise AttributeError
         /\ TypeError = AttributeError)
        \/ (legacy (snd item) = false /\ is_str (name (snd item)) = false
            /\ TypeError = TypeError)).
Proof.
  apply (classifier_raises_at_first_bad_entry _ docs_text). reflexivity.
Defined.

Lemma update_keeps_the_markers_witness :
  str_in begin_marker readme_text = true
  /\ str_in end_marker readme_text = true
  /\ str_in begin_marker
       ("# Models" ++ newline ++ replacement beta_rows ++ newline ++ "footer")
     = true
  /\ str_in end_marker
       ("# Models" ++ newline ++ replacement beta_rows ++ newline ++ "footer")
     = true.
Proof.
  exact (update_keeps_the_markers literal_template literal_template_literal
           beta_rows readme_text eq_refl).
Defined.

Lemma update_replaces_between_markers_witness :
  readme_text
  = (("# Models" ++ newline) ++ begin_marker ++ (newline ++ "old table" ++ newline)
       ++ end_marker ++ (newline ++ "footer"))%string
  /\ update_readme_table literal_template beta_rows readme_text
     = Ok (Some (("# Models" ++ newline) ++ begin_marker ++ newline
                   ++ markdown_table beta_rows ++ newline
                   ++ end_marker ++ (newline ++ "footer"))%string).
Proof.
  apply (update_replaces_between_markers literal_template
           literal_template_literal beta_rows readme_text
           ("# Models" ++ newline)
           (newline ++ "old table" ++ newline ++ end_marker ++ newline
              ++ "footer")
           (newline ++ "old table" ++ newline) (newline ++ "footer"));
    reflexivity.
Defined.

Lemma update_twice_is_update_once_witness :
  update_readme_table literal_template beta_rows
    ("# Models" ++ newline ++ replacement beta_rows ++ newline ++ "footer")
  = Ok (Some ("# Models" ++ newline ++ replacement beta_rows ++ newline
                ++ "footer")%string).
Proof.
  apply (update_twice_is_update_once literal_template
           literal_template_literal beta_rows readme_text
           ("# Models" ++ newline)
           (newline ++ "old table" ++ newline ++ end_marker ++ newline
              ++ "footer")
           (newline ++ "old table" ++ newline) (newline ++ "footer"));
    reflexivity.
Defined.

Lemma update_without_closing_marker_witness :
  update_readme_table literal_template beta_rows
    (end_marker ++ "x" ++ begin_marker)
  = Ok (Some (end_marker ++ "x" ++ begin_marker)%string).
Proof.
  apply (update_without_closing_marker literal_template
           literal_template_literal beta_rows
           (end_marker ++ "x" ++ begin_marker) (end_marker ++ "x") "");
    reflexivity.
Defined.
